(** * PimpMyGlow: the glow-script annotator ([annotate.go])

    A shallow embedding of the compiler pipeline of [annotate.go] --
    line parser, duration evaluator, club specializer, color resolver,
    label resolver, time resolver and annotator -- together with the
    properties of the pipeline that its specification states.

    Modelling conventions.
    - Go's [int] is the 64-bit two's-complement integer of the usual
      targets; it is a [Z] kept in range by [wrap].
    - Go strings are byte strings: [string] of [ascii].
    - Slices are lists; a nil slice and an empty slice are both [[]]
      (the program never compares a slice with nil).
    - [os.Exit(1)] after a message on standard error is the outcome
      [Fatal msg]; a run-time panic (explicit, or an index out of range)
      is the outcome [Panic].
    - Standard output is the list of the lines printed. *)

From Stdlib Require Import ZArith Lia Bool Ascii String List.
From Corelib Require Import SpecFloat.
From stdpp Require Import base option list gmap strings.

Local Open Scope string_scope.
Local Open Scope Z_scope.
Local Open Scope list_scope.

(** ** Outcomes of a computation that may terminate the process *)

Inductive result (A : Type) : Type :=
| Ok (a : A)
| Fatal (stderr : string)
| Panic.
Arguments Ok {A} a.
Arguments Fatal {A} stderr.
Arguments Panic {A}.

#[global] Instance result_ret : MRet result := fun A a => Ok a.

#[global] Instance result_bind : MBind result := fun A B k r =>
  match r with
  | Ok a => k a
  | Fatal m => Fatal m
  | Panic => Panic
  end.

#[global] Instance result_fmap : FMap result := fun A B f r =>
  match r with
  | Ok a => Ok (f a)
  | Fatal m => Fatal m
  | Panic => Panic
  end.

(** ** Go's [int] *)

Module Int.
Definition min_int : Z := - 2 ^ 63.
Definition max_int : Z := 2 ^ 63 - 1.

Definition in_range (z : Z) : bool := (min_int <=? z) && (z <=? max_int).

(** Two's-complement reduction of a mathematical integer. *)
Definition wrap (z : Z) : Z := (z + 2 ^ 63) mod 2 ^ 64 - 2 ^ 63.

Definition add (a b : Z) : Z := wrap (a + b).
Definition sub (a b : Z) : Z := wrap (a - b).
Definition mul (a b : Z) : Z := wrap (a * b).
End Int.

(** ** The pieces of Go's standard library that the program calls *)

Module strconv.
Definition digit_value (c : ascii) : option Z :=
  let n := Z.of_N (N_of_ascii c) in
  if (48 <=? n) && (n <=? 57) then Some (n - 48) else None.

Fixpoint digits_value (acc : Z) (s : string) : option Z :=
  match s with
  | EmptyString => Some acc
  | String c rest =>
      match digit_value c with
      | Some d => digits_value (10 * acc + d) rest
      | None => None
      end
  end.

(** [strconv.Atoi]: an optional sign, then one or more decimal digits;
    an error ([None]) on anything else and on a value outside [int]. *)
Definition Atoi (s : string) : option Z :=
  let '(neg, body) :=
    match s with
    | String "-" rest => (true, rest)
    | String "+" rest => (false, rest)
    | _ => (false, s)
    end in
  match body with
  | EmptyString => None
  | _ =>
      match digits_value 0 body with
      | Some n =>
          let v := if neg then - n else n in
          if Int.in_range v then Some v else None
      | None => None
      end
  end.

Definition digit_char (d : Z) : ascii := ascii_of_N (Z.to_N (48 + d)).

Fixpoint digits_of (fuel : nat) (n : Z) (acc : string) : string :=
  let acc' := String (digit_char (n mod 10)) acc in
  match fuel with
  | O => acc'
  | S fuel' => if n <? 10 then acc' else digits_of fuel' (n / 10) acc'
  end.

(** [fmt.Sprintf("%d", n)] for an [int] [n]: at most 19 digits. *)
Definition itoa (n : Z) : string :=
  if n <? 0 then String "-" (digits_of 19 (- n) "") else digits_of 19 n "".
End strconv.

Module strings.
Definition in_cutset (cutset : string) (c : ascii) : bool :=
  match String.index 0 (String c "") cutset with
  | Some _ => true
  | None => false
  end.

Fixpoint TrimLeft (s cutset : string) : string :=
  match s with
  | EmptyString => ""
  | String c rest => if in_cutset cutset c then TrimLeft rest cutset else s
  end.

Fixpoint TrimRight (s cutset : string) : string :=
  match s with
  | EmptyString => ""
  | String c rest =>
      match TrimRight rest cutset with
      | EmptyString => if in_cutset cutset c then "" else String c ""
      | rest' => String c rest'
      end
  end.

(** [strings.Trim(s, cutset)] *)
Definition Trim (s cutset : string) : string :=
  TrimRight (TrimLeft s cutset) cutset.

(** [strings.Index(s, sep)], with Go's [-1] as [None]. *)
Definition Index (s sep : string) : option nat := String.index 0 sep s.

(** [strings.Contains(s, sep)] *)
Definition Contains (s sep : string) : bool :=
  match Index s sep with Some _ => true | None => false end.

(** [strings.Split(s, sep)] for a one-byte separator: always at least
    one piece. *)
Fixpoint Split (s : string) (sep : ascii) : list string :=
  match s with
  | EmptyString => [""]
  | String c rest =>
      if Ascii.eqb c sep then "" :: Split rest sep
      else match Split rest sep with
           | piece :: pieces => String c piece :: pieces
           | [] => [String c ""]
           end
  end.

(** [strings.Join(elems, sep)] *)
Definition Join (elems : list string) (sep : string) : string :=
  String.concat sep elems.
End strings.

(** ** Standard output

    A computation that prints: the lines written to standard output so
    far, and how the computation ended.  What was printed before a fatal
    error stays printed. *)

Record io (A : Type) : Type := IO { stdout : list string; outcome : result A }.
Arguments IO {A} stdout outcome.
Arguments stdout {A} _.
Arguments outcome {A} _.

#[global] Instance io_ret : MRet io := fun A a => IO [] (Ok a).

#[global] Instance io_bind : MBind io := fun A B k m =>
  match outcome m with
  | Ok a => IO (stdout m ++ stdout (k a)) (outcome (k a))
  | Fatal e => IO (stdout m) (Fatal e)
  | Panic => IO (stdout m) Panic
  end.

Definition lift {A} (r : result A) : io A := IO [] r.

(** [fmt.Println(s)] *)
Definition Println (s : string) : io unit := IO [s] (Ok tt).

(** The newline that ends every message on standard error. *)
Definition nl : string := String "010" "".

(** [s[i]] on a slice: a run-time panic when [i] is out of range. *)
Definition index {A} (s : list A) (i : nat) : result A :=
  match s !! i with
  | Some x => Ok x
  | None => Panic
  end.

(** ** The command tree *)

#[local] Unset Elimination Schemes.
Inductive command : Type := Command {
  line : string;
  endLine : string;
  lineNo : Z;
  fields : list string;
  subCommands : list command
}.
#[local] Set Elimination Schemes.

Definition program : Type := list command.

(** ** Line parser *)

(** The messages of [parseNumber], [parseCount] and [resolveTime]. *)
Definition errNumber (lineNo : Z) : string :=
  "Error in line " +:+ strconv.itoa lineNo +:+ nl.

Definition errCountZero (lineNo : Z) : string :=
  "Error in line " +:+ strconv.itoa lineNo +:+ ": count can't be zero" +:+ nl.

Definition errBackInTime (time lineNo : Z) : string :=
  "Error: Cannot go back in time - it's already " +:+ strconv.itoa time
    +:+ " - in line " +:+ strconv.itoa lineNo +:+ nl.

Definition parseNumber (f : string) (lineNo : Z) : result Z :=
  match strconv.Atoi f with
  | Some duration => Ok duration
  | None => Fatal (errNumber lineNo)
  end.

Definition parseCount (f : string) (lineNo : Z) : result Z :=
  duration ← parseNumber f lineNo;
  if duration =? 0 then Fatal (errCountZero lineNo) else Ok duration.

(** The cut set [" \t"] of [splitLine]. *)
Definition blanks : string := String " " (String "009" "").

Definition splitLine (lineVerbatim : string) : list string :=
  let line :=
    if strings.Contains lineVerbatim ";"
    then match strings.Index lineVerbatim ";" with
         | Some i => String.substring 0 i lineVerbatim
         | None => lineVerbatim
         end
    else lineVerbatim in
  let line := strings.Trim line blanks in
  (fun f => strings.Trim f blanks) <$> strings.Split line ",".

Definition isBlockCommand (c : string) : bool :=
  String.eqb c "L" || String.eqb c "CLUBS".

Definition hasSubCommands (c : command) : result bool :=
  f0 ← index (fields c) 0; Ok (isBlockCommand f0).

(** [parseLines] and [parseCommand] call each other along the input; the
    model recurses on a step budget, and [None] means that the budget ran
    out ([parseLines_total] shows that the budget of [parseProgram] never
    does).  Line numbers are indices into [lines], as in the source. *)
Fixpoint parseLines (budget : nat) (lines : list string) (startLineNo : nat)
  : option (result (list command * nat)) :=
  match budget with
  | O => None
  | S budget =>
      match lines !! startLineNo with
      | None => Some (Ok ([], startLineNo))
      | Some lineVerbatim =>
          let fields := splitLine lineVerbatim in
          match index fields 0 with
          | Ok f0 =>
              if String.eqb f0 "E" then Some (Ok ([], startLineNo))
              else
                match parseCommand budget lines startLineNo fields with
                | Some (Ok (command, newLineNo)) =>
                    match parseLines budget lines newLineNo with
                    | Some (Ok (commands, lineNo)) =>
                        Some (Ok (command :: commands, lineNo))
                    | other => other
                    end
                | Some (Fatal e) => Some (Fatal e)
                | Some Panic => Some Panic
                | None => None
                end
          | Fatal e => Some (Fatal e)
          | Panic => Some Panic
          end
      end
  end
with parseCommand (budget : nat) (lines : list string) (startLineNo : nat)
  (fields : list string) : option (result (command * nat)) :=
  match budget with
  | O => None
  | S budget =>
      match index lines startLineNo, index fields 0 with
      | Ok lineVerbatim, Ok f0 =>
          let c := Command lineVerbatim "" (Z.of_nat startLineNo) fields [] in
          if String.eqb f0 "E" then Some Panic
          else if isBlockCommand f0 then
            match parseLines budget lines (startLineNo + 1) with
            | Some (Ok (subCommands, newLineNo)) =>
                match lines !! newLineNo with
                | None =>
                    Some (Fatal ("Error in program: unterminated loop" +:+ nl))
                | Some endLine =>
                    Some (Ok (Command lineVerbatim endLine (Z.of_nat startLineNo)
                                fields subCommands,
                              (newLineNo + 1)%nat))
                end
            | Some (Fatal e) => Some (Fatal e)
            | Some Panic => Some Panic
            | None => None
            end
          else Some (Ok (c, (startLineNo + 1)%nat))
      | _, _ => Some Panic
      end
  end.

Definition parseProgram (lines : list string) : result program :=
  match parseLines (2 * length lines + 1) lines 0 with
  | Some r =>
      '(commands, lineNo) ← r;
      if (lineNo <? length lines)%nat
      then Fatal ("Error in line " +:+ strconv.itoa (Z.of_nat lineNo)
                    +:+ ": E without L" +:+ nl)
      else Ok commands
  | None => Panic
  end.

(** ** Loops over a slice of commands

    The passes below are [for _, c := range cs] loops whose bodies call
    the pass itself on the sub-commands of [c].  Each kind of loop is
    written once, over the body [f] of the loop. *)

Section Loops.
Context {A B S : Type}.

(** [for _, x := range xs { acc += f(x) }] in [int] arithmetic. *)
Fixpoint sumEach (f : A -> result Z) (xs : list A) (acc : Z) : result Z :=
  match xs with
  | [] => Ok acc
  | x :: xs => d ← f x; sumEach f xs (Int.add acc d)
  end.

(** [for _, x := range xs { out = append(out, f(x)...) }] *)
Fixpoint appendEach (f : A -> result (list B)) (xs : list A) : result (list B) :=
  match xs with
  | [] => Ok []
  | x :: xs => new ← f x; rest ← appendEach f xs; Ok (new ++ rest)
  end.

(** The same loop when the body also updates a state [s] that the
    iterations share. *)
Fixpoint appendEachWith (f : A -> S -> result (list B * S)) (xs : list A)
  (s : S) : result (list B * S) :=
  match xs with
  | [] => Ok ([], s)
  | x :: xs =>
      '(new, s) ← f x s;
      '(rest, s) ← appendEachWith f xs s;
      Ok (new ++ rest, s)
  end.

(** [for _, x := range xs { f(x) }] for a body that prints. *)
Fixpoint forEach (f : A -> io unit) (xs : list A) : io unit :=
  match xs with
  | [] => mret tt
  | x :: xs => f x;; forEach f xs
  end.
End Loops.

(** ** Duration evaluator *)

Fixpoint duration (c : command) : result Z :=
  f0 ← index (fields c) 0;
  if String.eqb f0 "D" then
    f1 ← index (fields c) 1; parseCount f1 (lineNo c)
  else if String.eqb f0 "RAMP" then
    f4 ← index (fields c) 4; parseCount f4 (lineNo c)
  else if String.eqb f0 "L" then
    f1 ← index (fields c) 1;
    count ← parseCount f1 (lineNo c);
    duration' ← sumEach duration (subCommands c) 0;
    Ok (Int.mul duration' count)
  else if String.eqb f0 "TIME" then
    Fatal ("Error: TIME not supported here in line " +:+ strconv.itoa (lineNo c) +:+ nl)
  else
    b ← hasSubCommands c;
    if b : bool then Panic else Ok 0.

(** ** Annotator / emitter *)

Fixpoint print (c : command) : io unit :=
  Println (line c);;
  b ← lift (hasSubCommands c);
  if b : bool then
    forEach print (subCommands c);;
    Println (endLine c)
  else mret tt.

Definition print_program (p : program) : io unit := forEach print p.

Fixpoint annotateTimes_from (time : Z) (p : program) : io unit :=
  match p with
  | [] => mret tt
  | c :: p =>
      print c;;
      d ← lift (duration c);
      if 0 <? d then
        d' ← lift (duration c);
        let time := Int.add time d' in
        Println ("    ; time " +:+ strconv.itoa time);;
        annotateTimes_from time p
      else annotateTimes_from time p
  end.

Definition annotateTimes (p : program) : io unit := annotateTimes_from 0 p.

(** ** Club specializer *)

(** The scan of the id list of a [CLUBS] line: it stops at the first id
    equal to [club]. *)
Fixpoint clubFound (ids : list string) (lineNo club : Z) : result bool :=
  match ids with
  | [] => Ok false
  | f :: ids =>
      id ← parseCount f lineNo;
      if id =? club then Ok true else clubFound ids lineNo club
  end.

(** What one command of the program contributes to the specialized
    program. *)
Fixpoint specializeCommand (club : Z) (c : command) : result (list command) :=
  f0 ← index (fields c) 0;
  if String.eqb f0 "CLUBS" then
    found ← clubFound (drop 1 (fields c)) (lineNo c) club;
    if found : bool then appendEach (specializeCommand club) (subCommands c)
    else Ok []
  else
    b ← hasSubCommands c;
    if b : bool then
      subCommands' ← appendEach (specializeCommand club) (subCommands c);
      Ok [Command (line c) (endLine c) (lineNo c) (fields c) subCommands']
    else Ok [c].

Definition specializeForClub (p : program) (club : Z) : result program :=
  appendEach (specializeCommand club) p.

(** ** Time resolver *)

(** The delay command that replaces a [TIME] line. *)
Definition delayCommand (d lineNo : Z) : command :=
  let fields := ["D"; strconv.itoa d] in
  Command (strings.Join fields ",") "" lineNo fields [].

Fixpoint resolveTime_from (time : Z) (p : program) : result program :=
  match p with
  | [] => Ok []
  | c :: p =>
      f0 ← index (fields c) 0;
      if String.eqb f0 "TIME" then
        f1 ← index (fields c) 1;
        target ← parseCount f1 (lineNo c);
        if target <? time then
          Fatal (errBackInTime time (lineNo c))
        else if target =? time then resolveTime_from time p
        else
          rest ← resolveTime_from target p;
          Ok (delayCommand (Int.sub target time) (lineNo c) :: rest)
      else
        d ← duration c;
        rest ← resolveTime_from (Int.add time d) p;
        Ok (c :: rest)
  end.

Definition resolveTime (p : program) : result program := resolveTime_from 0 p.

(** ** Color resolver *)

Record color : Type := Color { r : Z; g : Z; b : Z }.

(** Go's [float64], as the IEEE 754 binary64 format of [SpecFloat]. *)
Module float64.
Definition prec : Z := 53.
Definition emax : Z := 1024.

(** [float64(n)]: the nearest double, ties to even. *)
Definition of_int (n : Z) : spec_float := binary_normalize prec emax n 0 false.

Definition mul : spec_float -> spec_float -> spec_float := SFmul prec emax.
Definition div : spec_float -> spec_float -> spec_float := SFdiv prec emax.

(** [int(f)]: the fraction is discarded.  Go leaves the result open when
    the value does not fit [int]; the model answers as amd64 does, with
    the smallest [int]. *)
Definition to_int (f : spec_float) : Z :=
  match f with
  | S754_zero _ => 0
  | S754_finite s m e =>
      let magnitude := if 0 <=? e then Z.pos m * 2 ^ e else Z.pos m / 2 ^ (- e) in
      let v := if s then - magnitude else magnitude in
      if Int.in_range v then v else Int.min_int
  | _ => Int.min_int
  end.
End float64.

(** Go's [regexp], for the two patterns of the program. *)
Module regexp.
Definition code (c : ascii) : Z := Z.of_N (N_of_ascii c).

(** [\d] *)
Definition is_digit (c : ascii) : bool := (48 <=? code c) && (code c <=? 57).

(** [\s]: tab, line feed, form feed, carriage return, space. *)
Definition is_space (c : ascii) : bool :=
  (code c =? 9) || (code c =? 10) || (code c =? 12) || (code c =? 13)
  || (code c =? 32).

(** [\d*$] *)
Fixpoint only_digits (s : string) : bool :=
  match s with
  | EmptyString => true
  | String c rest => is_digit c && only_digits rest
  end.

(** [MatchString] for [^\d+$] *)
Definition all_digits (s : string) : bool :=
  negb (String.eqb s "") && only_digits s.

(** [\d+%$] at the start of [s]: the digits. *)
Fixpoint digits_percent (s : string) : option string :=
  match s with
  | EmptyString => None
  | String c rest =>
      if is_digit c then
        if String.eqb rest "%" then Some (String c "")
        else String c <$> digits_percent rest
      else None
  end.

(** [\s+\d+%$] at the start of [s]: the digits. *)
Fixpoint spaces_digits_percent (s : string) : option string :=
  match s with
  | EmptyString => None
  | String c rest =>
      if is_space c then
        match spaces_digits_percent rest with
        | Some ds => Some ds
        | None => digits_percent rest
        end
      else None
  end.

(** [(\s+(\d+)%)?$] at the start of [s]: group 3, empty when the
    optional group takes no part. *)
Definition optional_percent (s : string) : option string :=
  match s with
  | EmptyString => Some ""
  | _ => spaces_digits_percent s
  end.

(** [FindStringSubmatch] for [^([^%]+)(\s+(\d+)%)?$]: groups 1 and 3 of
    the match, [None] when there is none.  Group 1 is greedy: the
    longest prefix free of [%] after which the rest still matches. *)
Fixpoint colorRegexp (s : string) : option (string * string) :=
  match s with
  | EmptyString => None
  | String c rest =>
      if Ascii.eqb c "%" then None
      else
        match colorRegexp rest with
        | Some (name, percent) => Some (String c name, percent)
        | None =>
            match optional_percent rest with
            | Some percent => Some (String c "", percent)
            | None => None
            end
        end
  end.
End regexp.

Definition scaleChannel (channel : Z) (p : spec_float) : Z :=
  float64.to_int (float64.mul (float64.of_int channel) p).

(** [float64(percent) / 100.0] *)
Definition percentFactor (percent : Z) : spec_float :=
  float64.div (float64.of_int percent) (float64.of_int 100).

Definition resolveColor (colors : gmap string color) (description : string)
  (lineNo : Z) : result (list string) :=
  match regexp.colorRegexp description with
  | None => Panic
  | Some (name, percent) =>
      match colors !! name with
      | None =>
          Fatal ("Error: Color " +:+ name +:+ " not defined in line "
                   +:+ strconv.itoa lineNo +:+ nl)
      | Some c =>
          c ← (if String.eqb percent "" then Ok c
               else
                 n ← parseNumber percent lineNo;
                 let p := percentFactor n in
                 Ok (Color (scaleChannel (r c) p) (scaleChannel (g c) p)
                       (scaleChannel (b c) p)));
          Ok [strconv.itoa (r c); strconv.itoa (g c); strconv.itoa (b c)]
      end
  end.

(** One command of [resolveColorInCommands]: the commands it appends and
    the color map it leaves. *)
Fixpoint resolveColorInCommand (c : command) (colors : gmap string color)
  (allowDefine : bool) : result (list command * gmap string color) :=
  f0 ← index (fields c) 0;
  if String.eqb f0 "COLOR" then
    if negb allowDefine then
      Fatal ("Error: Can't define colors here in line "
               +:+ strconv.itoa (lineNo c) +:+ nl)
    else
      name ← index (fields c) 1;
      match colors !! name with
      | Some _ => Fatal ("Error: Color " +:+ name +:+ " redefined" +:+ nl)
      | None =>
          colorFields ←
            (if (length (fields c) =? 3)%nat then
               f2 ← index (fields c) 2; resolveColor colors f2 (lineNo c)
             else if (5 <=? length (fields c))%nat
                  then Ok (take 3 (drop 2 (fields c)))
                  else Panic);
          f0 ← index colorFields 0; r ← parseNumber f0 (lineNo c);
          f1 ← index colorFields 1; g ← parseNumber f1 (lineNo c);
          f2 ← index colorFields 2; b ← parseNumber f2 (lineNo c);
          Ok ([], <[name := Color r g b]> colors)
      end
  else if String.eqb f0 "C" then
    if (length (fields c) =? 2)%nat then
      f1 ← index (fields c) 1;
      clr ← resolveColor colors f1 (lineNo c);
      c0 ← index clr 0; c1 ← index clr 1; c2 ← index clr 2;
      let fields' := ["C"; c0; c1; c2] in
      Ok ([Command (strings.Join fields' ",") (endLine c) (lineNo c) fields'
             (subCommands c)], colors)
    else Ok ([c], colors)
  else if String.eqb f0 "RAMP" then
    if (length (fields c) =? 3)%nat then
      f1 ← index (fields c) 1;
      clr ← resolveColor colors f1 (lineNo c);
      c0 ← index clr 0; c1 ← index clr 1; c2 ← index clr 2;
      f2 ← index (fields c) 2;
      let fields' := ["RAMP"; c0; c1; c2; f2] in
      Ok ([Command (strings.Join fields' ",") (endLine c) (lineNo c) fields'
             (subCommands c)], colors)
    else Ok ([c], colors)
  else
    b ← hasSubCommands c;
    if b : bool then
      '(subCommands', colors') ←
        appendEachWith (fun sc colors => resolveColorInCommand sc colors false)
          (subCommands c) colors;
      Ok ([Command (line c) (endLine c) (lineNo c) (fields c) subCommands'],
          colors')
    else Ok ([c], colors).

Definition resolveColorInCommands (cs : list command) (colors : gmap string color)
  (allowDefine : bool) : result (list command * gmap string color) :=
  appendEachWith (fun c colors => resolveColorInCommand c colors allowDefine)
    cs colors.

Definition resolveColors (p : program) : result program :=
  fst <$> resolveColorInCommands p ∅ true.

(** ** Label resolver *)

Record label : Type := Label { start : Z; end_ : Z }.

Fixpoint resolveLabelsCommand (labels : gmap string label) (c : command)
  : result (list command) :=
  f0 ← index (fields c) 0;
  if String.eqb f0 "TIME" then
    f1 ← index (fields c) 1;
    if negb (regexp.all_digits f1) then
      match labels !! f1 with
      | None => Fatal ("Error: Label " +:+ f1 +:+ " not defined" +:+ nl)
      | Some l =>
          let fields' := ["TIME"; strconv.itoa (start l)] in
          Ok [Command (strings.Join fields' ",") (endLine c) (lineNo c) fields'
                (subCommands c)]
      end
    else Ok [c]
  else
    b ← hasSubCommands c;
    if b : bool then
      subCommands' ← appendEach (resolveLabelsCommand labels) (subCommands c);
      Ok [Command (line c) (endLine c) (lineNo c) (fields c) subCommands']
    else Ok [c].

Definition resolveLabels (p : program) (labels : gmap string label) : result program :=
  appendEach (resolveLabelsCommand labels) p.

(** ** The pipeline of [main], after the label file has been read *)

Definition compile (labels : gmap string label) (lines : list string) : io unit :=
  program ← lift (parseProgram lines);
  specialized ← lift (specializeForClub program 1);
  colored ← lift (resolveColors specialized);
  delabeled ← lift (resolveLabels colored labels);
  resolved ← lift (resolveTime delabeled);
  annotateTimes resolved.

(** ** Auxiliary definitions for the statements below *)

(** The opcode of a command, when it has one. *)
Definition opcode (c : command) : option string := fields c !! 0%nat.

(** A command with the given line, number and fields and nothing below. *)
Definition leaf (line : string) (lineNo : Z) (fields : list string) : command :=
  Command line "" lineNo fields [].

(** The [TIME] line of the examples: [TIME,target] on line [lineNo]. *)
Definition timeLine (target : Z) (lineNo : Z) : command :=
  leaf ("TIME," +:+ strconv.itoa target) lineNo ["TIME"; strconv.itoa target].

(** Only spaces and tabs. *)
Fixpoint all_blank (s : string) : bool :=
  match s with
  | EmptyString => true
  | String c rest => strings.in_cutset blanks c && all_blank rest
  end.

(** A line with nothing but spaces and tabs in front of its end or of its
    comment. *)
Definition blank_or_comment (line : string) : Prop :=
  exists ws tail,
    line = ws +:+ tail /\ all_blank ws = true
    /\ (tail = "" \/ exists text, tail = String ";" text).

(** No [CLUBS] node: the opcode of [c] is not [CLUBS], nor is that of any
    command in the body of a block of [c].  (Only blocks have a body that
    the passes and the printer visit.) *)
Fixpoint noClubs (c : command) : bool :=
  match fields c with
  | [] => true
  | f0 :: _ =>
      negb (String.eqb f0 "CLUBS")
      && (if isBlockCommand f0 then forallb noClubs (subCommands c) else true)
  end.

(** Every command has an opcode, as every parsed command has. *)
Fixpoint hasOpcodes (c : command) : bool :=
  match fields c with
  | [] => false
  | f0 :: _ =>
      if isBlockCommand f0 then forallb hasOpcodes (subCommands c) else true
  end.

(** The lines [i], ..., [j - 1] of the input. *)
Definition segment (lines : list string) (i j : nat) : list string :=
  take (j - i) (drop i lines).

(** No [%] in the string. *)
Fixpoint no_percent (s : string) : bool :=
  match s with
  | EmptyString => true
  | String c rest => negb (Ascii.eqb c "%") && no_percent rest
  end.

(** The channel [channel] at [percent] percent, as [resolveColor]
    computes it. *)
Definition scalePercent (channel percent : Z) : Z :=
  scaleChannel channel (percentFactor percent).

(** The check of [scalePercent] against the exact quotient, for the
    channels [0..255] and the percentages [0..100]. *)
Definition scalePercent_near (p : spec_float) (percent channel : Z) : bool :=
  let exact := channel * percent / 100 in
  let scaled := scaleChannel channel p in
  (exact - 1 <=? scaled) && (scaled <=? exact).

Definition scalePercent_exact (p : spec_float) (percent channel : Z) : bool :=
  scaleChannel channel p =? channel * percent / 100.

(** The opcode that [splitLine] gives a line. *)
Definition lineOpcode (l : string) : string :=
  match splitLine l with
  | f0 :: _ => f0
  | [] => ""
  end.

(** Block nesting, read off the opcodes alone.  [scan depth ls] walks the
    lines [ls] inside [depth] open blocks: it stops at the first [E] line
    that closes no block, with the lines after it, or reaches the end of
    the input with some blocks still open. *)
Inductive scanned : Type :=
| Stray (rest : list string)
| Ended (depth : nat).

Fixpoint scan (depth : nat) (ls : list string) : scanned :=
  match ls with
  | [] => Ended depth
  | l :: ls =>
      if String.eqb (lineOpcode l) "E" then
        match depth with
        | O => Stray ls
        | S depth => scan depth ls
        end
      else if isBlockCommand (lineOpcode l) then scan (S depth) ls
      else scan depth ls
  end.

(** The two messages of the parser. *)
Definition errStrayE (lineNo : nat) : string :=
  "Error in line " +:+ strconv.itoa (Z.of_nat lineNo) +:+ ": E without L" +:+ nl.

Definition errUnterminated : string := "Error in program: unterminated loop" +:+ nl.

(** How the result of [parseLines] agrees with a scan of the lines it
    starts at. *)
Definition agrees (len : nat) (s : scanned) (r : result (list command * nat)) : Prop :=
  match s with
  | Stray rest => exists cs, r = Ok (cs, (len - 1 - length rest)%nat)
  | Ended O => exists cs j, r = Ok (cs, j) /\ (len <= j)%nat
  | Ended (S _) => r = Fatal errUnterminated
  end.

(** What the parser guarantees of a command, against the input [lines]:
    its number is the index of its own line, its fields are the split of
    that line and start with an opcode other than [E]; a block command
    carries the [E] line that closed it and parsed children, and any other
    command has neither children nor a closing line. *)
Fixpoint wellParsed (lines : list string) (c : command) : bool :=
  (0 <=? lineNo c)
  && bool_decide (lines !! Z.to_nat (lineNo c) = Some (line c))
  && bool_decide (fields c = splitLine (line c))
  && negb (String.eqb (lineOpcode (line c)) "E")
  && (if isBlockCommand (lineOpcode (line c))
      then String.eqb (lineOpcode (endLine c)) "E"
           && forallb (wellParsed lines) (subCommands c)
      else match subCommands c with [] => String.eqb (endLine c) "" | _ => false end).

(** The character [c] does not occur in [s]. *)
Fixpoint lacks (c : ascii) (s : string) : bool :=
  match s with
  | EmptyString => true
  | String a rest => negb (Ascii.eqb a c) && lacks c rest
  end.

(** A field as [splitLine] makes them: no comma, no semicolon, and no
    space or tab at either end. *)
Definition cleanField (f : string) : bool :=
  lacks "," f && lacks ";" f && String.eqb (strings.Trim f blanks) f.

(** The first character is not in the cut set of [splitLine]. *)
Definition head_ok (s : string) : bool :=
  match s with
  | EmptyString => true
  | String c _ => negb (strings.in_cutset blanks c)
  end.

(** No command with the opcode [op], at any depth that the passes visit. *)
Fixpoint lacksOpcode (op : string) (c : command) : bool :=
  match fields c with
  | [] => true
  | f0 :: _ =>
      negb (String.eqb f0 op)
      && (if isBlockCommand f0 then forallb (lacksOpcode op) (subCommands c)
          else true)
  end.

(** The [C] line with the channels of a color. *)
Definition colorCommand (use : command) (c : color) : command :=
  let fields := ["C"; strconv.itoa (r c); strconv.itoa (g c); strconv.itoa (b c)] in
  Command (strings.Join fields ",") (endLine use) (lineNo use) fields
    (subCommands use).

(** What the color pass keeps, for one command and for a list. *)
Definition colorsKept (allowDefine : bool) (colors : gmap string color)
  (out : list command * gmap string color) : Prop :=
  colors ⊆ out.2
  /\ (allowDefine = false -> out.2 = colors)
  /\ forallb (lacksOpcode "COLOR") out.1 = true.

(** ** The label file, once decoded

    [readLabels] decodes the XML project with [encoding/xml] and then
    fills the label map from the decoded labels.  The decoding is a
    library call on a file; the model starts from the decoded labels. *)

Record XMLLabel : Type := { Title : string; Start : spec_float; End_ : spec_float }.

(** [int(seconds * 100)] *)
Definition centiseconds (seconds : spec_float) : Z :=
  float64.to_int (float64.mul seconds (float64.of_int 100)).

Definition labelOf (l : XMLLabel) : label :=
  Label (centiseconds (Start l)) (centiseconds (End_ l)).

Fixpoint readLabels_from (ls : list XMLLabel) (labels : gmap string label)
  : result (gmap string label) :=
  match ls with
  | [] => Ok labels
  | l :: ls =>
      match labels !! Title l with
      | Some _ =>
          Fatal ("Error: Label " +:+ Title l +:+ " defined more than once" +:+ nl)
      | None => readLabels_from ls (<[Title l := labelOf l]> labels)
      end
  end.

Definition readLabels (project : list XMLLabel) : result (gmap string label) :=
  readLabels_from project ∅.

(** The lines that [print] writes for a command, when it can print it. *)
Fixpoint printed (c : command) : list string :=
  line c
  :: match fields c with
     | f0 :: _ =>
         if isBlockCommand f0
         then concat (map printed (subCommands c)) ++ [endLine c]
         else []
     | [] => []
     end.

(** The comment line of the annotator for the time [time]. *)
Definition timeComment (time : Z) : string := "    ; time " +:+ strconv.itoa time.

(** The line of a command still splits into its fields, for the command
    and for the commands in the body of a block. *)
Fixpoint coherent (c : command) : bool :=
  bool_decide (splitLine (line c) = fields c)
  && match fields c with
     | f0 :: _ =>
         if isBlockCommand f0 then forallb coherent (subCommands c) else true
     | [] => true
     end.

(** No space and no tab in the string. *)
Fixpoint noBlank (s : string) : bool :=
  match s with
  | EmptyString => true
  | String c rest => negb (strings.in_cutset blanks c) && noBlank rest
  end.

(** * Properties *)

(** ** Results and integers *)

Lemma wrap_in_range z : Int.in_range z = true -> Int.wrap z = z.
Proof.
  unfold Int.in_range, Int.wrap, Int.min_int, Int.max_int.
  intros H. apply andb_true_iff in H as [H1 H2].
  apply Z.leb_le in H1, H2.
  rewrite Z.mod_small by lia. lia.
Qed.

Lemma wrap_range z : Int.in_range (Int.wrap z) = true.
Proof.
  unfold Int.in_range, Int.wrap, Int.min_int, Int.max_int.
  pose proof (Z.mod_pos_bound (z + 2 ^ 63) (2 ^ 64) ltac:(lia)).
  apply andb_true_iff. split; apply Z.leb_le; lia.
Qed.

Lemma in_range_iff z :
  Int.in_range z = true <-> Int.min_int <= z <= Int.max_int.
Proof.
  unfold Int.in_range. rewrite andb_true_iff, !Z.leb_le. tauto.
Qed.

(** ** Decimal numbers: printing then parsing *)

Lemma digit_value_char d :
  0 <= d <= 9 -> strconv.digit_value (strconv.digit_char d) = Some d.
Proof.
  intros H.
  assert (d = 0 \/ d = 1 \/ d = 2 \/ d = 3 \/ d = 4 \/ d = 5 \/ d = 6
          \/ d = 7 \/ d = 8 \/ d = 9) as Hd by lia.
  repeat (destruct Hd as [-> | Hd]; [reflexivity |]). subst. reflexivity.
Qed.

Lemma digits_value_digits_of fuel : forall n acc,
  0 <= n < 10 ^ Z.of_nat (S fuel) ->
  exists k, 0 <= k /\ forall a,
    strconv.digits_value a (strconv.digits_of fuel n acc)
    = strconv.digits_value (a * 10 ^ k + n) acc.
Proof.
  assert (Hone : forall n acc a, 0 <= n < 10 ->
    strconv.digits_value a (String (strconv.digit_char (n mod 10)) acc)
    = strconv.digits_value (a * 10 ^ 1 + n) acc).
  { intros n acc a Hn. cbn [strconv.digits_value].
    rewrite digit_value_char by (pose proof (Z.mod_pos_bound n 10); lia).
    rewrite Z.mod_small by lia. f_equal. lia. }
  induction fuel as [|fuel IH]; intros n acc Hn.
  - exists 1. split; [lia|]. intros a. cbn [strconv.digits_of].
    apply Hone. change (10 ^ Z.of_nat 1) with 10 in Hn. lia.
  - cbn [strconv.digits_of]. destruct (Z.ltb_spec n 10) as [Hlt|Hge].
    + exists 1. split; [lia|]. intros a. apply Hone. lia.
    + destruct (IH (n / 10) (String (strconv.digit_char (n mod 10)) acc))
        as (k & Hk & Heq).
      { split; [apply Z.div_pos; lia|].
        apply Z.div_lt_upper_bound; [lia|].
        replace (Z.of_nat (S (S fuel))) with (Z.succ (Z.of_nat (S fuel))) in Hn by lia.
        rewrite Z.pow_succ_r in Hn by lia. lia. }
      exists (k + 1). split; [lia|]. intros a. rewrite Heq.
      cbn [strconv.digits_value].
      rewrite digit_value_char by (pose proof (Z.mod_pos_bound n 10); lia).
      f_equal. rewrite Z.pow_add_r by lia.
      pose proof (Z.div_mod n 10 ltac:(lia)). lia.
Qed.

Lemma digits_of_head fuel : forall n acc,
  exists d rest, 0 <= d <= 9 /\
    strconv.digits_of fuel n acc = String (strconv.digit_char d) rest.
Proof.
  induction fuel as [|fuel IH]; intros n acc; cbn [strconv.digits_of].
  - exists (n mod 10), acc. split; [pose proof (Z.mod_pos_bound n 10); lia | reflexivity].
  - destruct (n <? 10).
    + exists (n mod 10), acc. split; [pose proof (Z.mod_pos_bound n 10); lia | reflexivity].
    + apply IH.
Qed.

Lemma Atoi_digits d rest :
  0 <= d <= 9 ->
  strconv.Atoi (String (strconv.digit_char d) rest)
  = match strconv.digits_value 0 (String (strconv.digit_char d) rest) with
    | Some n => if Int.in_range n then Some n else None
    | None => None
    end.
Proof.
  intros H.
  assert (d = 0 \/ d = 1 \/ d = 2 \/ d = 3 \/ d = 4 \/ d = 5 \/ d = 6
          \/ d = 7 \/ d = 8 \/ d = 9) as Hd by lia.
  repeat (destruct Hd as [-> | Hd]; [reflexivity |]). subst. reflexivity.
Qed.

(** Every [int] is read back from its decimal form. *)
Lemma Atoi_itoa n :
  Int.in_range n = true -> strconv.Atoi (strconv.itoa n) = Some n.
Proof.
  intros Hr. pose proof Hr as Hr'. apply in_range_iff in Hr'.
  unfold Int.min_int, Int.max_int in Hr'. unfold strconv.itoa.
  destruct (Z.ltb_spec n 0) as [Hneg|Hpos].
  - destruct (digits_of_head 19 (- n) "") as (d & rest & Hd & Hhead).
    destruct (digits_value_digits_of 19 (- n) "") as (k & Hk & Hval).
    { change (10 ^ Z.of_nat 20) with 100000000000000000000. lia. }
    unfold strconv.Atoi. rewrite Hhead. rewrite <- Hhead.
    rewrite Hval. cbn [strconv.digits_value].
    replace (- (0 * 10 ^ k + - n)) with n by lia. now rewrite Hr.
  - destruct (digits_of_head 19 n "") as (d & rest & Hd & Hhead).
    destruct (digits_value_digits_of 19 n "") as (k & Hk & Hval).
    { change (10 ^ Z.of_nat 20) with 100000000000000000000. lia. }
    rewrite Hhead, Atoi_digits by assumption. rewrite <- Hhead.
    rewrite Hval. cbn [strconv.digits_value].
    replace (0 * 10 ^ k + n) with n by lia. now rewrite Hr.
Qed.

(** ** Reading the fields of a command *)

Lemma command_ind (P : command -> Prop) :
  (forall l e n f subs, Forall P subs -> P (Command l e n f subs)) ->
  forall c, P c.
Proof.
  intros step. fix IH 1. intros [l e n f subs]. apply step.
  induction subs as [|sc subs IHsubs]; constructor; [apply IH | apply IHsubs].
Qed.

Lemma duration_eq c :
  duration c =
    f0 ← index (fields c) 0;
    if String.eqb f0 "D" then
      f1 ← index (fields c) 1; parseCount f1 (lineNo c)
    else if String.eqb f0 "RAMP" then
      f4 ← index (fields c) 4; parseCount f4 (lineNo c)
    else if String.eqb f0 "L" then
      f1 ← index (fields c) 1;
      count ← parseCount f1 (lineNo c);
      duration' ← sumEach duration (subCommands c) 0;
      Ok (Int.mul duration' count)
    else if String.eqb f0 "TIME" then
      Fatal ("Error: TIME not supported here in line "
               +:+ strconv.itoa (lineNo c) +:+ nl)
    else
      b ← hasSubCommands c;
      if b : bool then Panic else Ok 0.
Proof. destruct c; reflexivity. Qed.

Lemma parseCount_Atoi f n lineNo :
  strconv.Atoi f = Some n ->
  parseCount f lineNo = if n =? 0 then Fatal (errCountZero lineNo) else Ok n.
Proof. intros H. unfold parseCount, parseNumber. rewrite H. reflexivity. Qed.

Lemma parseCount_not_number f lineNo :
  strconv.Atoi f = None -> parseCount f lineNo = Fatal (errNumber lineNo).
Proof. intros H. unfold parseCount, parseNumber. rewrite H. reflexivity. Qed.

Lemma Atoi_range f n : strconv.Atoi f = Some n -> Int.in_range n = true.
Proof.
  unfold strconv.Atoi.
  destruct (match f with
            | String "-" rest => (true, rest)
            | String "+" rest => (false, rest)
            | _ => (false, f)
            end) as [neg body].
  destruct body; [discriminate|].
  destruct (strconv.digits_value 0 _); [|discriminate].
  destruct (Int.in_range _) eqn:E; [|discriminate].
  intros [= <-]. exact E.
Qed.

(** ** Duration of delays, ramps and loops *)

Lemma duration_D c f more n :
  fields c = "D" :: f :: more -> strconv.Atoi f = Some n ->
  duration c = if n =? 0 then Fatal (errCountZero (lineNo c)) else Ok n.
Proof.
  intros Hf Hn. rewrite duration_eq, Hf. cbn.
  now rewrite (parseCount_Atoi _ _ _ Hn).
Qed.

Lemma duration_RAMP c r g b f n :
  fields c = ["RAMP"; r; g; b; f] -> strconv.Atoi f = Some n ->
  duration c = if n =? 0 then Fatal (errCountZero (lineNo c)) else Ok n.
Proof.
  intros Hf Hn. rewrite duration_eq, Hf. cbn.
  now rewrite (parseCount_Atoi _ _ _ Hn).
Qed.

(** C2, as the code has it: the duration of [D,n] and of the five-field
    [RAMP,r,g,b,n] is [n] for every nonzero integer [n] of an [int],
    however [n] is spelled; for [n = 0] the evaluation is fatal with the
    message "count can't be zero". *)
Theorem duration_delay_ramp (c : command) (f : string) (n : Z) :
  strconv.Atoi f = Some n ->
  (exists more, fields c = "D" :: f :: more)
  \/ (exists r g b, fields c = ["RAMP"; r; g; b; f]) ->
  duration c = if n =? 0 then Fatal (errCountZero (lineNo c)) else Ok n.
Proof.
  intros Hn [[more Hf] | (r & g & b & Hf)].
  - exact (duration_D c f more n Hf Hn).
  - exact (duration_RAMP c r g b f n Hf Hn).
Qed.

Lemma duration_delay_ramp_witness :
  duration (leaf "D,5" 0 ["D"; "5"]) = Ok 5.
Proof.
  apply (duration_delay_ramp (leaf "D,5" 0 ["D"; "5"]) "5" 5).
  - reflexivity.
  - left. exists []. reflexivity.
Defined.

(** Every nonzero [int] has a [D] command of that duration. *)
Lemma duration_delayCommand n lineNo :
  Int.in_range n = true -> n <> 0 ->
  duration (delayCommand n lineNo) = Ok n.
Proof.
  intros Hr Hn.
  rewrite (duration_D (delayCommand n lineNo) (strconv.itoa n) [] n eq_refl
             (Atoi_itoa n Hr)).
  destruct (Z.eqb_spec n 0); [contradiction | reflexivity].
Qed.

(** C2 fails at [n = 0]: the line [D,0] parses, and its duration is a
    fatal error, not [0]. *)
Lemma duration_delay_zero_fatal :
  parseProgram ["D,0"] = Ok [leaf "D,0" 0 ["D"; "0"]]
  /\ strconv.Atoi "0" = Some 0
  /\ duration (leaf "D,0" 0 ["D"; "0"])
     = Fatal ("Error in line 0: count can't be zero" +:+ nl)
  /\ duration (leaf "D,0" 0 ["D"; "0"]) <> Ok 0.
Proof. repeat split; try reflexivity. discriminate. Qed.

(** C6, as the code has it: for [L,k] with [k >= 1] whose children sum
    to [d >= 0], the duration is [d * k] in [int] arithmetic, and it is
    exactly [k * d] whenever [k * d] fits an [int]. *)
Theorem duration_loop (c : command) (f : string) (more : list string) (k d : Z) :
  fields c = "L" :: f :: more ->
  strconv.Atoi f = Some k ->
  1 <= k ->
  sumEach duration (subCommands c) 0 = Ok d ->
  0 <= d ->
  duration c = Ok (Int.wrap (d * k))
  /\ (k * d <= Int.max_int -> duration c = Ok (k * d)).
Proof.
  intros Hf Hk Hk1 Hd Hd0.
  assert (Hdur : duration c = Ok (Int.wrap (d * k))).
  { rewrite duration_eq, Hf. cbn. rewrite (parseCount_Atoi _ _ _ Hk).
    destruct (Z.eqb_spec k 0); [lia|]. cbn. rewrite Hd. reflexivity. }
  split; [exact Hdur|]. intros Hfit. rewrite Hdur. f_equal.
  rewrite wrap_in_range; [lia|]. apply in_range_iff.
  unfold Int.min_int, Int.max_int in *. nia.
Qed.

Lemma duration_loop_witness :
  duration (Command "L,2" "E" 0 ["L"; "2"] [leaf "D,100" 1 ["D"; "100"]])
  = Ok (2 * 100).
Proof.
  refine (proj2 (duration_loop
    (Command "L,2" "E" 0 ["L"; "2"] [leaf "D,100" 1 ["D"; "100"]])
    "2" [] 2 100 _ _ _ _ _) _);
    [reflexivity | reflexivity | lia | reflexivity | lia | ].
  unfold Int.max_int. lia.
Defined.

(** C6 fails when [k * d] leaves the range of an [int]: [L,2^62] around
    [D,4] has duration [0], not [2^64]. *)
Lemma duration_loop_overflow :
  parseProgram ["L,4611686018427387904"; "D,4"; "E"]
  = Ok [Command "L,4611686018427387904" "E" 0 ["L"; "4611686018427387904"]
          [leaf "D,4" 1 ["D"; "4"]]]
  /\ strconv.Atoi "4611686018427387904" = Some 4611686018427387904
  /\ sumEach duration [leaf "D,4" 1 ["D"; "4"]] 0 = Ok 4
  /\ duration (Command "L,4611686018427387904" "E" 0
                 ["L"; "4611686018427387904"] [leaf "D,4" 1 ["D"; "4"]])
     = Ok 0
  /\ 4611686018427387904 * 4 <> 0.
Proof. repeat split; try (vm_compute; reflexivity). lia. Qed.

(** ** Zero counts *)

Lemma duration_L_zero c f more :
  fields c = "L" :: f :: more -> strconv.Atoi f = Some 0 ->
  duration c = Fatal (errCountZero (lineNo c)).
Proof.
  intros Hf Hz. rewrite duration_eq, Hf. cbn.
  now rewrite (parseCount_Atoi _ _ _ Hz).
Qed.

(** C5, as the code has it: a zero loop count is an error of the Duration
    Evaluator, not of the parser.  Evaluating the duration of an [L]
    command whose count is zero is fatal with the message "count can't be
    zero" and the line number recorded in the command, and so is the Time
    Resolver when it reaches such a command at the top level, whatever
    the time and whatever follows. *)
Theorem zero_loop_count_fatal (c : command) (f : string) (more : list string) :
  fields c = "L" :: f :: more ->
  strconv.Atoi f = Some 0 ->
  duration c = Fatal (errCountZero (lineNo c))
  /\ forall time p,
       resolveTime_from time (c :: p) = Fatal (errCountZero (lineNo c)).
Proof.
  intros Hf Hz. pose proof (duration_L_zero c f more Hf Hz) as Hd.
  split; [exact Hd|]. intros time p.
  cbn [resolveTime_from]. rewrite Hf at 1. cbn. now rewrite Hd.
Qed.

Lemma zero_loop_count_fatal_witness :
  duration (Command "L,0" "E" 7 ["L"; "0"] [])
  = Fatal ("Error in line 7: count can't be zero" +:+ nl).
Proof.
  exact (proj1 (zero_loop_count_fatal (Command "L,0" "E" 7 ["L"; "0"] [])
                  "0" [] eq_refl eq_refl)).
Defined.

(** C5 fails: the parser accepts [L,0], and a program whose [L,0] sits in
    a [CLUBS] block for another club runs to the end without any error. *)
Lemma zero_loop_count_parses :
  parseProgram ["L,0"; "E"] = Ok [Command "L,0" "E" 0 ["L"; "0"] []]
  /\ compile ∅ ["CLUBS,2"; "L,0"; "E"; "E"] = IO [] (Ok tt).
Proof. split; vm_compute; reflexivity. Qed.

(** ** The id list of a [CLUBS] block *)

Lemma specializeCommand_eq club c :
  specializeCommand club c =
    f0 ← index (fields c) 0;
    if String.eqb f0 "CLUBS" then
      found ← clubFound (drop 1 (fields c)) (lineNo c) club;
      if found : bool then appendEach (specializeCommand club) (subCommands c)
      else Ok []
    else
      b ← hasSubCommands c;
      if b : bool then
        subCommands' ← appendEach (specializeCommand club) (subCommands c);
        Ok [Command (line c) (endLine c) (lineNo c) (fields c) subCommands']
      else Ok [c].
Proof. destruct c; reflexivity. Qed.

Lemma clubFound_nonzero ids lineNo club :
  Forall (fun f => exists id, strconv.Atoi f = Some id /\ id <> 0) ids ->
  clubFound ids lineNo club
  = Ok (bool_decide (Exists (fun f => strconv.Atoi f = Some club) ids)).
Proof.
  induction 1 as [|f ids (id & Hid & Hnz) _ IH]; [reflexivity|].
  cbn [clubFound]. rewrite (parseCount_Atoi _ _ _ Hid).
  destruct (Z.eqb_spec id 0); [contradiction|]. cbn.
  destruct (Z.eqb_spec id club) as [->|Hne].
  - rewrite bool_decide_eq_true_2; [reflexivity | now constructor].
  - rewrite IH. f_equal. apply bool_decide_ext.
    rewrite Exists_cons. split; [tauto|]. intros [H|H]; [congruence | exact H].
Qed.

Lemma clubFound_zero pre z post lineNo club :
  Forall (fun f => exists id, strconv.Atoi f = Some id /\ id <> 0 /\ id <> club) pre ->
  strconv.Atoi z = Some 0 ->
  clubFound (pre ++ z :: post) lineNo club = Fatal (errCountZero lineNo).
Proof.
  intros Hpre Hz. induction Hpre as [|f pre (id & Hid & Hnz & Hne) _ IH].
  - cbn. now rewrite (parseCount_Atoi _ _ _ Hz).
  - cbn [app clubFound]. rewrite (parseCount_Atoi _ _ _ Hid).
    destruct (Z.eqb_spec id 0); [contradiction|]. cbn.
    destruct (Z.eqb_spec id club); [contradiction | exact IH].
Qed.

(** C3, as the code has it: the ids of a [CLUBS] line are read with
    [parseCount], so each id that the scan reaches must be a nonzero
    integer.  When every listed id is a nonzero integer the scan is never
    fatal: the block is replaced by its specialized children when the
    target is listed and dropped otherwise.  An id [0] that the scan reaches
    before the target is fatal with "count can't be zero", as it is for the
    count of [L]. *)
Theorem clubs_id_list (club : Z) (c : command) (ids : list string) :
  fields c = "CLUBS" :: ids ->
  (Forall (fun f => exists id, strconv.Atoi f = Some id /\ id <> 0) ids ->
   clubFound ids (lineNo c) club
   = Ok (bool_decide (Exists (fun f => strconv.Atoi f = Some club) ids))
   /\ specializeCommand club c
      = if bool_decide (Exists (fun f => strconv.Atoi f = Some club) ids)
        then appendEach (specializeCommand club) (subCommands c)
        else Ok [])
  /\ (forall pre z post,
        ids = pre ++ z :: post ->
        Forall (fun f => exists id,
                  strconv.Atoi f = Some id /\ id <> 0 /\ id <> club) pre ->
        strconv.Atoi z = Some 0 ->
        specializeCommand club c = Fatal (errCountZero (lineNo c))).
Proof.
  intros Hf. split.
  - intros Hids. pose proof (clubFound_nonzero ids (lineNo c) club Hids) as Hscan.
    split; [exact Hscan|].
    rewrite specializeCommand_eq, Hf. cbn. rewrite drop_0, Hscan. reflexivity.
  - intros pre z post -> Hpre Hz.
    rewrite specializeCommand_eq, Hf. cbn. rewrite drop_0.
    now rewrite (clubFound_zero pre z post (lineNo c) club Hpre Hz).
Qed.

Lemma clubs_id_list_witness :
  specializeCommand 1 (Command "CLUBS,2,1" "E" 0 ["CLUBS"; "2"; "1"]
                         [leaf "D,5" 1 ["D"; "5"]])
  = Ok [leaf "D,5" 1 ["D"; "5"]].
Proof.
  refine (eq_trans (proj2 (proj1 (clubs_id_list 1
    (Command "CLUBS,2,1" "E" 0 ["CLUBS"; "2"; "1"] [leaf "D,5" 1 ["D"; "5"]])
    ["2"; "1"] eq_refl) _)) _).
  - constructor; [exists 2; split; [reflexivity | lia] |].
    constructor; [exists 1; split; [reflexivity | lia] |].
    constructor.
  - vm_compute. reflexivity.
Defined.

(** C3 fails at the id [0]: [CLUBS,0] parses, its only id is numeric, and
    specializing for club 1 is fatal. *)
Lemma clubs_id_zero_fatal :
  parseProgram ["CLUBS,0"; "E"] = Ok [Command "CLUBS,0" "E" 0 ["CLUBS"; "0"] []]
  /\ strconv.Atoi "0" = Some 0
  /\ clubFound ["0"] 0 1 = Fatal ("Error in line 0: count can't be zero" +:+ nl)
  /\ specializeForClub [Command "CLUBS,0" "E" 0 ["CLUBS"; "0"] []] 1
     = Fatal ("Error in line 0: count can't be zero" +:+ nl).
Proof. repeat split; vm_compute; reflexivity. Qed.

(** ** Time resolver *)

Lemma resolveTime_TIME time c p f more target :
  fields c = "TIME" :: f :: more ->
  strconv.Atoi f = Some target ->
  resolveTime_from time (c :: p)
  = if target =? 0 then Fatal (errCountZero (lineNo c))
    else if target <? time then Fatal (errBackInTime time (lineNo c))
    else if target =? time then resolveTime_from time p
    else rest ← resolveTime_from target p;
         Ok (delayCommand (Int.sub target time) (lineNo c) :: rest).
Proof.
  intros Hf Ht. cbn [resolveTime_from]. rewrite Hf. cbn.
  rewrite (parseCount_Atoi _ _ _ Ht). now destruct (target =? 0).
Qed.

Lemma resolveTime_other time c p op d :
  opcode c = Some op -> op <> "TIME" -> duration c = Ok d ->
  resolveTime_from time (c :: p)
  = rest ← resolveTime_from (Int.add time d) p; Ok (c :: rest).
Proof.
  unfold opcode. intros Hop Hne Hd. cbn [resolveTime_from].
  unfold index. rewrite Hop. cbn.
  destruct (String.eqb_spec op "TIME"); [contradiction|]. now rewrite Hd.
Qed.

Lemma sub_exact target time :
  Int.in_range target = true -> 0 <= time <= target ->
  Int.sub target time = target - time.
Proof.
  intros Hr Ht. apply in_range_iff in Hr. unfold Int.sub.
  apply wrap_in_range, in_range_iff.
  unfold Int.min_int, Int.max_int in *. lia.
Qed.

(** C1, as the code has it.  The Time Resolver walks the program from
    left to right with a time counter that starts at 0, and when it is at
    time [time] in front of a command [c]:
    - [TIME,target] with a nonzero target greater than [time] becomes the
      delay command [D,(target - time)] (the difference of [int]
      arithmetic, exact when [time >= 0]) and the walk goes on at time
      [target];
    - [TIME,target] with a nonzero target equal to [time] produces nothing
      and leaves the time as it is;
    - [TIME,target] with a nonzero target less than [time] is fatal
      ("Cannot go back in time");
    - [TIME,0] is fatal at every time, time 0 included, because the target
      is read with [parseCount] ("count can't be zero");
    - every other command whose duration [d] evaluates is kept as it is
      and the walk goes on at time [time + d] of [int] arithmetic.
    The targets [150,150,300] yield the delays 150 and 150; the targets
    [0,150,150,300] are fatal at the first line; the targets [100,50] are
    fatal at the second. *)
Theorem resolveTime_walk :
  (forall p, resolveTime p = resolveTime_from 0 p)
  /\ (forall time c p f more target,
        fields c = "TIME" :: f :: more -> strconv.Atoi f = Some target ->
        target <> 0 -> time < target ->
        resolveTime_from time (c :: p)
        = (rest ← resolveTime_from target p;
           Ok (delayCommand (Int.sub target time) (lineNo c) :: rest))
        /\ (0 <= time -> Int.sub target time = target - time))
  /\ (forall time c p f more target,
        fields c = "TIME" :: f :: more -> strconv.Atoi f = Some target ->
        target <> 0 -> target = time ->
        resolveTime_from time (c :: p) = resolveTime_from time p)
  /\ (forall time c p f more target,
        fields c = "TIME" :: f :: more -> strconv.Atoi f = Some target ->
        target <> 0 -> target < time ->
        resolveTime_from time (c :: p) = Fatal (errBackInTime time (lineNo c)))
  /\ (forall time c p f more,
        fields c = "TIME" :: f :: more -> strconv.Atoi f = Some 0 ->
        resolveTime_from time (c :: p) = Fatal (errCountZero (lineNo c)))
  /\ (forall time c p op d,
        opcode c = Some op -> op <> "TIME" -> duration c = Ok d ->
        resolveTime_from time (c :: p)
        = (rest ← resolveTime_from (Int.add time d) p; Ok (c :: rest)))
  /\ resolveTime [timeLine 150 0; timeLine 150 1; timeLine 300 2]
     = Ok [delayCommand 150 0; delayCommand 150 2]
  /\ resolveTime [timeLine 0 0; timeLine 150 1; timeLine 150 2; timeLine 300 3]
     = Fatal (errCountZero 0)
  /\ resolveTime [timeLine 100 0; timeLine 50 1] = Fatal (errBackInTime 100 1).
Proof.
  split; [reflexivity|].
  split.
  { intros time c p f more target Hf Ht Hnz Hlt. split.
    - rewrite (resolveTime_TIME time c p f more target Hf Ht).
      destruct (Z.eqb_spec target 0); [contradiction|].
      destruct (Z.ltb_spec target time); [lia|].
      destruct (Z.eqb_spec target time); [lia | reflexivity].
    - intros H0. apply sub_exact; [exact (Atoi_range f target Ht) | lia]. }
  split.
  { intros time c p f more target Hf Ht Hnz Heq.
    rewrite (resolveTime_TIME time c p f more target Hf Ht).
    destruct (Z.eqb_spec target 0); [contradiction|].
    destruct (Z.ltb_spec target time); [lia|].
    destruct (Z.eqb_spec target time); [reflexivity | contradiction]. }
  split.
  { intros time c p f more target Hf Ht Hnz Hlt.
    rewrite (resolveTime_TIME time c p f more target Hf Ht).
    destruct (Z.eqb_spec target 0); [contradiction|].
    destruct (Z.ltb_spec target time); [reflexivity | lia]. }
  split.
  { intros time c p f more Hf Ht.
    now rewrite (resolveTime_TIME time c p f more 0 Hf Ht). }
  split.
  { intros time c p op d. apply resolveTime_other. }
  repeat split; vm_compute; reflexivity.
Qed.

Lemma resolveTime_walk_witness :
  resolveTime_from 100 [timeLine 250 4]
  = Ok [delayCommand (Int.sub 250 100) 4]
  /\ Int.sub 250 100 = 250 - 100.
Proof.
  destruct (proj1 (proj2 resolveTime_walk) 100 (timeLine 250 4) [] "250" [] 250)
    as [Hstep Hexact]; [reflexivity | reflexivity | lia | lia |].
  split; [exact Hstep | apply Hexact; lia].
Defined.

(** C1 fails at [TIME,0]: the four lines parse, and the Time Resolver is
    fatal at the first of them instead of dropping it. *)
Lemma resolveTime_zero_target_fatal :
  parseProgram ["TIME,0"; "TIME,150"; "TIME,150"; "TIME,300"]
  = Ok [timeLine 0 0; timeLine 150 1; timeLine 150 2; timeLine 300 3]
  /\ resolveTime [timeLine 0 0; timeLine 150 1; timeLine 150 2; timeLine 300 3]
     = Fatal ("Error in line 0: count can't be zero" +:+ nl)
  /\ resolveTime [timeLine 0 0] <> Ok [].
Proof. repeat split; try (vm_compute; reflexivity). discriminate. Qed.

(** ** Empty lines and comment lines *)

Lemma in_cutset_blanks c :
  strings.in_cutset blanks c = true -> c = " "%char \/ c = "009"%char.
Proof.
  unfold strings.in_cutset, blanks. cbn.
  destruct (ascii_dec c " ") as [->|_]; [now left|].
  destruct (ascii_dec c "009") as [->|_]; [now right|].
  cbn. discriminate.
Qed.

Lemma append_cons c s t : String c s +:+ t = String c (s +:+ t).
Proof. reflexivity. Qed.

Lemma append_empty_r s : s +:+ "" = s.
Proof.
  induction s as [|c s IH]; [reflexivity|]. now rewrite append_cons, IH.
Qed.

Lemma Trim_all_blank ws : all_blank ws = true -> strings.Trim ws blanks = "".
Proof.
  unfold strings.Trim. induction ws as [|c ws IH]; [reflexivity|].
  cbn. intros H. apply andb_true_iff in H as [Hc Hws].
  rewrite Hc. auto.
Qed.

Lemma Index_all_blank ws : all_blank ws = true -> strings.Index ws ";" = None.
Proof.
  unfold strings.Index. induction ws as [|c ws IH]; [reflexivity|].
  cbn. intros H. apply andb_true_iff in H as [Hc Hws].
  rewrite (IH Hws).
  destruct (in_cutset_blanks c Hc) as [-> | ->]; reflexivity.
Qed.

Lemma Index_comment ws text :
  all_blank ws = true ->
  strings.Index (ws +:+ String ";" text) ";" = Some (String.length ws).
Proof.
  unfold strings.Index.
  induction ws as [|c ws IH]; [intros _; destruct text; vm_compute; reflexivity|].
  rewrite append_cons. cbn [all_blank String.index String.length]. intros H. apply andb_true_iff in H as [Hc Hws].
  rewrite (IH Hws).
  destruct (in_cutset_blanks c Hc) as [-> | ->]; reflexivity.
Qed.

Lemma substring_append ws tail :
  String.substring 0 (String.length ws) (ws +:+ tail) = ws.
Proof.
  induction ws as [|c ws IH]; [now destruct tail|].
  rewrite append_cons. cbn. now rewrite IH.
Qed.

Lemma splitLine_blank line : blank_or_comment line -> splitLine line = [""].
Proof.
  intros (ws & tail & -> & Hws & [-> | [text ->]]); unfold splitLine, strings.Contains.
  - rewrite append_empty_r, (Index_all_blank ws Hws), (Trim_all_blank ws Hws).
    reflexivity.
  - rewrite (Index_comment ws text Hws), substring_append, (Trim_all_blank ws Hws).
    reflexivity.
Qed.

Section EmptyOpcode.
(** A command whose opcode is the empty string. *)
Variable c : command.
Hypothesis Hop : opcode c = Some "".

Lemma empty_fields : exists more, fields c = "" :: more.
Proof.
  unfold opcode in Hop. destruct (fields c) as [|f more]; [discriminate|].
  injection Hop as ->. now exists more.
Qed.

Lemma empty_duration : duration c = Ok 0.
Proof.
  destruct empty_fields as [more H]. rewrite duration_eq.
  unfold hasSubCommands. now rewrite H.
Qed.

Lemma empty_specializeCommand club : specializeCommand club c = Ok [c].
Proof.
  destruct empty_fields as [more H]. rewrite specializeCommand_eq.
  unfold hasSubCommands. now rewrite H.
Qed.

Lemma empty_resolveColorInCommand colors allowDefine :
  resolveColorInCommand c colors allowDefine = Ok ([c], colors).
Proof.
  destruct empty_fields as [more H]. destruct c as [l e n f subs].
  cbn in H. subst f. reflexivity.
Qed.

Lemma empty_resolveLabelsCommand labels :
  resolveLabelsCommand labels c = Ok [c].
Proof.
  destruct empty_fields as [more H]. destruct c as [l e n f subs].
  cbn in H. subst f. reflexivity.
Qed.

Lemma empty_print : print c = Println (line c).
Proof.
  destruct empty_fields as [more H]. destruct c as [l e n f subs].
  cbn in H. subst f. reflexivity.
Qed.
End EmptyOpcode.

Lemma add_zero time : Int.in_range time = true -> Int.add time 0 = time.
Proof. intros H. unfold Int.add. rewrite Z.add_0_r. now apply wrap_in_range. Qed.

(** C10: a line that is empty, or that holds only a comment (after spaces
    and tabs, if any), splits into the single field [""]; the parser makes
    of it a leaf command with the empty opcode; the duration of that
    command is 0; the specializer, the color resolver, the label resolver
    and the time resolver keep it as it is and go on with the same colors
    and the same time; and the annotator prints its line and no time
    comment after it. *)
Theorem blank_line_passes (line : string) :
  blank_or_comment line ->
  splitLine line = [""]
  /\ (forall budget lines i,
        lines !! i = Some line ->
        parseCommand (S budget) lines i (splitLine line)
        = Some (Ok (leaf line (Z.of_nat i) [""], (i + 1)%nat)))
  /\ forall lineNo,
       let c := leaf line lineNo [""] in
       opcode c = Some ""
       /\ subCommands c = []
       /\ duration c = Ok 0
       /\ (forall club p,
             specializeForClub (c :: p) club
             = (rest ← specializeForClub p club; Ok (c :: rest)))
       /\ (forall colors allowDefine cs,
             resolveColorInCommands (c :: cs) colors allowDefine
             = ('(rest, colors') ← resolveColorInCommands cs colors allowDefine;
                Ok (c :: rest, colors')))
       /\ (forall labels p,
             resolveLabels (c :: p) labels
             = (rest ← resolveLabels p labels; Ok (c :: rest)))
       /\ (forall time p,
             Int.in_range time = true ->
             resolveTime_from time (c :: p)
             = (rest ← resolveTime_from time p; Ok (c :: rest)))
       /\ (forall time p,
             annotateTimes_from time (c :: p)
             = (Println line;; annotateTimes_from time p)).
Proof.
  intros Hline. pose proof (splitLine_blank line Hline) as Hsplit.
  split; [exact Hsplit|]. split.
  { intros budget lines i Hi. rewrite Hsplit. cbn [parseCommand].
    unfold index. rewrite Hi. reflexivity. }
  intros lineNo c.
  assert (Hop : opcode c = Some "") by reflexivity.
  split; [exact Hop|]. split; [reflexivity|].
  split; [exact (empty_duration c Hop)|].
  split.
  { intros club p. unfold specializeForClub. cbn [appendEach].
    rewrite (empty_specializeCommand c Hop). reflexivity. }
  split.
  { intros colors allowDefine cs. unfold resolveColorInCommands.
    cbn [appendEachWith]. rewrite (empty_resolveColorInCommand c Hop).
    reflexivity. }
  split.
  { intros labels p. unfold resolveLabels. cbn [appendEach].
    rewrite (empty_resolveLabelsCommand c Hop). reflexivity. }
  split.
  { intros time p Hr.
    rewrite (resolveTime_other time c p "" 0 Hop ltac:(discriminate)
               (empty_duration c Hop)).
    now rewrite add_zero. }
  intros time p. cbn [annotateTimes_from].
  rewrite (empty_print c Hop), (empty_duration c Hop). reflexivity.
Qed.

Lemma blank_line_passes_witness :
  splitLine "  ; a comment" = [""]
  /\ duration (leaf "  ; a comment" 3 [""]) = Ok 0.
Proof.
  assert (H : blank_or_comment "  ; a comment").
  { exists "  ", "; a comment". split; [reflexivity|]. split; [reflexivity|].
    right. now exists " a comment". }
  destruct (blank_line_passes "  ; a comment" H) as (Hsplit & _ & Hpass).
  split; [exact Hsplit | exact (proj1 (proj2 (proj2 (Hpass 3))))].
Defined.

(** ** Specialization is idempotent *)

Lemma noClubs_eq c :
  noClubs c = match fields c with
              | [] => true
              | f0 :: _ =>
                  negb (String.eqb f0 "CLUBS")
                  && (if isBlockCommand f0
                      then forallb noClubs (subCommands c) else true)
              end.
Proof. destruct c; reflexivity. Qed.

Lemma hasOpcodes_eq c :
  hasOpcodes c = match fields c with
                 | [] => false
                 | f0 :: _ =>
                     if isBlockCommand f0
                     then forallb hasOpcodes (subCommands c) else true
                 end.
Proof. destruct c; reflexivity. Qed.

Lemma appendEach_fixed (f : command -> result (list command)) (p : list command) :
  Forall (fun c => f c = Ok [c]) p -> appendEach f p = Ok p.
Proof.
  induction 1 as [|c p Hc _ IH]; [reflexivity|].
  cbn [appendEach]. now rewrite Hc, IH.
Qed.

Lemma appendEach_all (f : command -> result (list command))
  (Q : command -> bool) (p q : list command) :
  Forall (fun c => forall q, f c = Ok q -> forallb Q q = true) p ->
  appendEach f p = Ok q -> forallb Q q = true.
Proof.
  intros H. revert q. induction H as [|c p Hc _ IH]; intros q; cbn [appendEach].
  - now intros [= <-].
  - destruct (f c) as [new| |] eqn:Hnew; try discriminate. cbn.
    destruct (appendEach f p) as [rest| |]; try discriminate. cbn.
    intros [= <-]. rewrite forallb_app, (Hc new eq_refl), (IH rest eq_refl).
    reflexivity.
Qed.

Lemma specializeCommand_fixed club : forall c,
  hasOpcodes c = true -> noClubs c = true -> specializeCommand club c = Ok [c].
Proof.
  induction c as [l e n f subs IH] using command_ind.
  rewrite hasOpcodes_eq, noClubs_eq, specializeCommand_eq. unfold hasSubCommands.
  cbn [fields subCommands line endLine lineNo].
  destruct f as [|f0 more]; [discriminate|]. cbn.
  destruct (String.eqb f0 "CLUBS"); [discriminate|]. cbn.
  destruct (isBlockCommand f0); [|reflexivity].
  intros Hwf Hnc. rewrite appendEach_fixed; [reflexivity|].
  induction IH as [|sc subs Hsc _ IHsubs]; [constructor|].
  cbn in Hwf, Hnc. apply andb_true_iff in Hwf as [? ?], Hnc as [? ?].
  constructor; auto.
Qed.

Lemma specializeCommand_specialized club : forall c q,
  specializeCommand club c = Ok q ->
  forallb (fun c => hasOpcodes c && noClubs c) q = true.
Proof.
  induction c as [l e n f subs IH] using command_ind. intros q.
  rewrite specializeCommand_eq. unfold hasSubCommands.
  cbn [fields subCommands line endLine lineNo].
  destruct f as [|f0 more]; [discriminate|]. cbn.
  destruct (String.eqb f0 "CLUBS") eqn:Hclubs.
  - destruct (clubFound _ _ _) as [[|]| |]; cbn; try discriminate.
    + now apply appendEach_all.
    + now intros [= <-].
  - destruct (isBlockCommand f0) eqn:Hblock.
    + destruct (appendEach _ subs) as [subs'| |] eqn:Hsubs; try discriminate.
      cbn. intros [= <-].
      pose proof (appendEach_all _ _ subs subs' IH Hsubs) as Hall.
      cbn. rewrite Hclubs, Hblock. cbn.
      rewrite andb_true_r.
      apply andb_true_iff. split.
      * clear -Hall. induction subs' as [|sc subs' IH']; [reflexivity|].
        cbn in Hall |- *. apply andb_true_iff in Hall as [Hsc Hall].
        apply andb_true_iff in Hsc as [-> _]. auto.
      * clear -Hall. induction subs' as [|sc subs' IH']; [reflexivity|].
        cbn in Hall |- *. apply andb_true_iff in Hall as [Hsc Hall].
        apply andb_true_iff in Hsc as [_ ->]. auto.
    + intros [= <-]. cbn. now rewrite Hclubs, Hblock.
Qed.

Lemma specializeForClub_fixed p club :
  forallb hasOpcodes p = true -> forallb noClubs p = true ->
  specializeForClub p club = Ok p.
Proof.
  intros Hwf Hnc. apply appendEach_fixed.
  induction p as [|c p IH]; [constructor|].
  cbn in Hwf, Hnc. apply andb_true_iff in Hwf as [? ?], Hnc as [? ?].
  constructor; [now apply specializeCommand_fixed | auto].
Qed.

(** C8: specializing a program with no [CLUBS] node at any depth returns
    it unchanged, for every club id; and for every program and club id,
    specializing the specialized program again changes nothing (when the
    first specialization is fatal there is no second one). *)
Theorem specializeForClub_idempotent :
  (forall p club,
     forallb hasOpcodes p = true -> forallb noClubs p = true ->
     specializeForClub p club = Ok p)
  /\ (forall p club,
        (specializeForClub p club ≫= fun q => specializeForClub q club)
        = specializeForClub p club)
  /\ (forall p club q,
        specializeForClub p club = Ok q ->
        forallb noClubs q = true /\ specializeForClub q club = Ok q).
Proof.
  assert (Hspec : forall p club q,
    specializeForClub p club = Ok q ->
    forallb hasOpcodes q = true /\ forallb noClubs q = true).
  { intros p club q Hq.
    assert (Hall : forallb (fun c => hasOpcodes c && noClubs c) q = true).
    { apply (appendEach_all (specializeCommand club) _ p q); [|exact Hq].
      apply Forall_forall. intros c _ q'. apply specializeCommand_specialized. }
    clear Hq. induction q as [|c q IH]; [now split|].
    cbn in Hall |- *. apply andb_true_iff in Hall as [Hc Hall].
    apply andb_true_iff in Hc as [-> ->]. now apply IH. }
  split; [exact specializeForClub_fixed|]. split.
  - intros p club. destruct (specializeForClub p club) as [q| |] eqn:Hq;
      [|reflexivity..].
    cbn. destruct (Hspec p club q Hq). now apply specializeForClub_fixed.
  - intros p club q Hq. destruct (Hspec p club q Hq).
    split; [assumption | now apply specializeForClub_fixed].
Qed.

Lemma specializeForClub_idempotent_witness :
  specializeForClub
    [Command "L,2" "E" 0 ["L"; "2"] [leaf "D,100" 1 ["D"; "100"]];
     leaf "D,50" 3 ["D"; "50"]] 7
  = Ok [Command "L,2" "E" 0 ["L"; "2"] [leaf "D,100" 1 ["D"; "100"]];
        leaf "D,50" 3 ["D"; "50"]].
Proof.
  apply (proj1 specializeForClub_idempotent); reflexivity.
Defined.

(** ** Parsing, then printing *)

Section Segments.
Local Open Scope nat_scope.
Variable lines : list string.

Lemma segment_empty i : segment lines i i = [].
Proof. unfold segment. now rewrite Nat.sub_diag. Qed.

Lemma segment_first i j x :
  lines !! i = Some x -> i < j ->
  segment lines i j = x :: segment lines (S i) j.
Proof.
  intros Hx Hij. unfold segment. rewrite (drop_S _ _ _ Hx).
  replace (j - i) with (S (j - S i)) by lia. reflexivity.
Qed.

Lemma segment_one i x : lines !! i = Some x -> segment lines i (i + 1) = [x].
Proof.
  intros Hx. rewrite (segment_first i (i + 1) x Hx) by lia.
  now replace (i + 1) with (S i) by lia; rewrite segment_empty.
Qed.

Lemma segment_app i k j :
  i <= k -> k <= j ->
  segment lines i k ++ segment lines k j = segment lines i j.
Proof.
  intros Hik Hkj. unfold segment.
  replace (drop k lines) with (drop (k - i) (drop i lines))
    by (rewrite drop_drop; f_equal; lia).
  rewrite take_take_drop. f_equal. lia.
Qed.

Lemma segment_all j :
  length lines <= j -> segment lines 0 j = lines.
Proof.
  intros Hj. unfold segment. rewrite drop_0. apply take_ge. lia.
Qed.
End Segments.

Lemma io_bind_ok {A B} (out : list string) (a : A) (k : A -> io B) :
  (IO out (Ok a) ≫= k) = IO (out ++ stdout (k a)) (outcome (k a)).
Proof. reflexivity. Qed.

Lemma print_eq c :
  print c =
    (Println (line c);;
     b ← lift (hasSubCommands c);
     if b : bool then forEach print (subCommands c);; Println (endLine c)
     else mret tt).
Proof. destruct c; reflexivity. Qed.

Lemma print_leaf c f0 more :
  fields c = f0 :: more -> isBlockCommand f0 = false ->
  print c = IO [line c] (Ok tt).
Proof.
  intros Hf Hb. rewrite print_eq. unfold hasSubCommands. rewrite Hf. cbn.
  rewrite Hb. reflexivity.
Qed.

Lemma print_block c f0 more body :
  fields c = f0 :: more -> isBlockCommand f0 = true ->
  forEach print (subCommands c) = IO body (Ok tt) ->
  print c = IO (line c :: body ++ [endLine c]) (Ok tt).
Proof.
  intros Hf Hb Hbody. rewrite print_eq. unfold hasSubCommands. rewrite Hf. cbn.
  rewrite Hb, Hbody. reflexivity.
Qed.

(** What the parser returns prints as the lines that it consumed. *)
Lemma parse_print (lines : list string) (budget : nat) :
  (forall i cs j,
     parseLines budget lines i = Some (Ok (cs, j)) ->
     (i <= j)%nat /\ (j <= length lines \/ j = i)%nat
     /\ forEach print cs = IO (segment lines i j) (Ok tt))
  /\ (forall i fields c j,
        parseCommand budget lines i fields = Some (Ok (c, j)) ->
        (i < j)%nat /\ (j <= length lines)%nat
        /\ print c = IO (segment lines i j) (Ok tt)).
Proof.
  induction budget as [|budget [IHlines IHcommand]]; [split; discriminate|].
  split.
  - intros i cs j. cbn [parseLines].
    destruct (lines !! i) as [lineVerbatim|] eqn:Hi.
    2:{ intros [= <- <-]. rewrite segment_empty. auto with lia. }
    unfold index. destruct (splitLine lineVerbatim !! 0%nat) as [f0|];
      [|discriminate].
    destruct (String.eqb f0 "E").
    { intros [= <- <-]. rewrite segment_empty. auto with lia. }
    destruct (parseCommand budget lines i _) as [[[c k]| |]|] eqn:Hc;
      try discriminate.
    destruct (parseLines budget lines k) as [[[cs' j']| |]|] eqn:Hcs;
      try discriminate.
    intros [= <- <-].
    destruct (IHcommand _ _ _ _ Hc) as (Hik & Hk & Hprint).
    destruct (IHlines _ _ _ Hcs) as (Hkj & Hj & Hprints).
    split; [lia|]. split; [lia|].
    cbn [forEach]. rewrite Hprint, io_bind_ok, Hprints. cbn.
    now rewrite segment_app by lia.
  - intros i fields c j. cbn [parseCommand]. unfold index.
    destruct (lines !! i) as [lineVerbatim|] eqn:Hi; [|discriminate].
    pose proof (lookup_lt_Some _ _ _ Hi) as Hlen.
    destruct (fields !! 0%nat) as [f0|] eqn:Hf0; [|discriminate].
    destruct fields as [|f0' more]; [discriminate|]. injection Hf0 as ->.
    destruct (String.eqb f0 "E"); [discriminate|].
    destruct (isBlockCommand f0) eqn:Hblock.
    + destruct (parseLines budget lines (i + 1)) as [[[subs k]| |]|] eqn:Hsubs;
        try discriminate.
      destruct (lines !! k) as [closing|] eqn:Hk; [|discriminate].
      pose proof (lookup_lt_Some _ _ _ Hk) as Hklen.
      intros [= <- <-].
      destruct (IHlines _ _ _ Hsubs) as (Hik & _ & Hprints).
      split; [lia|]. split; [lia|].
      rewrite (print_block (Command lineVerbatim closing (Z.of_nat i) (f0 :: more) subs)
                 f0 more (segment lines (i + 1) k) eq_refl Hblock Hprints).
      cbn [line endLine]. f_equal.
      rewrite (segment_first lines i (k + 1) lineVerbatim Hi) by lia.
      f_equal. replace (S i) with (i + 1)%nat by lia.
      rewrite <- (segment_one lines k closing Hk).
      apply segment_app; lia.
    + intros [= <- <-]. split; [lia|]. split; [lia|].
      rewrite (print_leaf (Command lineVerbatim "" (Z.of_nat i) (f0 :: more) [])
                 f0 more eq_refl Hblock). cbn [line].
      now rewrite (segment_one lines i lineVerbatim Hi).
Qed.

(** The parser never exhausts the budget that [parseProgram] gives it. *)
Lemma parse_total (lines : list string) (budget : nat) :
  (forall i,
     (2 * (length lines - i) + 1 <= budget)%nat ->
     parseLines budget lines i <> None)
  /\ (forall i fields,
        (2 * (length lines - i) <= budget)%nat -> (i < length lines)%nat ->
        parseCommand budget lines i fields <> None).
Proof.
  induction budget as [|budget [IHlines IHcommand]].
  { split; intros; lia. }
  split.
  - intros i Hb. cbn [parseLines].
    destruct (lines !! i) as [lineVerbatim|] eqn:Hi; [|discriminate].
    pose proof (lookup_lt_Some _ _ _ Hi) as Hlen.
    destruct (index _ 0) as [f0| |]; try discriminate.
    destruct (String.eqb f0 "E"); [discriminate|].
    destruct (parseCommand budget lines i _) as [[[c k]| |]|] eqn:Hc;
      try discriminate.
    + destruct (proj2 (parse_print lines budget) _ _ _ _ Hc) as (Hik & Hk & _).
      pose proof (IHlines k ltac:(lia)) as Hsome.
      destruct (parseLines budget lines k) as [[[cs j]| |]|];
        [discriminate.. | contradiction].
    + exfalso. revert Hc. apply IHcommand; lia.
  - intros i fields Hb Hi. cbn [parseCommand].
    destruct (index lines i) as [lineVerbatim| |]; try discriminate.
    destruct (index fields 0) as [f0| |]; try discriminate.
    destruct (String.eqb f0 "E"); [discriminate|].
    destruct (isBlockCommand f0); [|discriminate].
    pose proof (IHlines (i + 1)%nat ltac:(lia)) as Hsome.
    destruct (parseLines budget lines (i + 1)) as [[[subs k]| |]|];
      [|discriminate..|contradiction].
    destruct (lines !! k); discriminate.
Qed.

Lemma parseLines_total (lines : list string) :
  exists r, parseLines (2 * length lines + 1) lines 0 = Some r.
Proof.
  destruct (parseLines _ lines 0) as [r|] eqn:H; [now exists r|].
  exfalso. revert H. apply (proj1 (parse_total lines _)). lia.
Qed.

(** C7: when the input lines parse without a fatal error, printing the
    parsed program writes the input lines again, all of them, verbatim and
    in order, the closing line of each block after its children. *)
Theorem parse_print_roundtrip (lines : list string) (p : program) :
  parseProgram lines = Ok p ->
  print_program p = IO lines (Ok tt).
Proof.
  unfold parseProgram, print_program.
  destruct (parseLines _ lines 0) as [[[cs j]| |]|] eqn:Hparse; try discriminate.
  change (Ok (cs, j) ≫= _)
    with (if (j <? length lines)%nat
          then @Fatal program ("Error in line " +:+ strconv.itoa (Z.of_nat j)
                                 +:+ ": E without L" +:+ nl)
          else Ok cs).
  destruct (Nat.ltb_spec j (length lines)) as [|Hj]; [discriminate|].
  intros [= <-].
  destruct (proj1 (parse_print lines _) _ _ _ Hparse) as (_ & _ & ->).
  now rewrite segment_all.
Qed.

Lemma parse_print_roundtrip_witness :
  print_program
    [Command "L,2 ; twice" " E" 0 ["L"; "2"] [leaf "  D,100" 1 ["D"; "100"]];
     leaf "; done" 3 [""]]
  = IO ["L,2 ; twice"; "  D,100"; " E"; "; done"] (Ok tt).
Proof.
  apply (parse_print_roundtrip ["L,2 ; twice"; "  D,100"; " E"; "; done"]).
  vm_compute. reflexivity.
Defined.

(** ** Colors with a percentage *)

Lemma is_digit_not_percent c : regexp.is_digit c = true -> Ascii.eqb c "%" = false.
Proof.
  intros H. destruct (Ascii.eqb_spec c "%") as [->|]; [discriminate | reflexivity].
Qed.

Lemma is_digit_not_space c : regexp.is_digit c = true -> regexp.is_space c = false.
Proof.
  unfold regexp.is_digit, regexp.is_space. intros H.
  apply andb_true_iff in H as [H _]. apply Z.leb_le in H.
  repeat (apply orb_false_iff; split); apply Z.eqb_neq; lia.
Qed.

Lemma spaces_digits_percent_digit c rest :
  regexp.is_space c = false -> regexp.spaces_digits_percent (String c rest) = None.
Proof. intros H. cbn. now rewrite H. Qed.

Lemma digits_percent_ok ds :
  regexp.all_digits ds = true -> regexp.digits_percent (ds +:+ "%") = Some ds.
Proof.
  unfold regexp.all_digits. intros H. apply andb_true_iff in H as [Hne Hds].
  induction ds as [|c ds IH]; [discriminate|].
  cbn in Hds. apply andb_true_iff in Hds as [Hc Hds].
  rewrite append_cons. cbn [regexp.digits_percent]. rewrite Hc.
  destruct ds as [|c' ds]; [reflexivity|].
  cbn in Hds. pose proof Hds as Hds'. apply andb_true_iff in Hds' as [Hc' _].
  rewrite append_cons.
  replace (String.eqb (String c' (ds +:+ "%")) "%") with false.
  2:{ cbn. rewrite (is_digit_not_percent c' Hc'). reflexivity. }
  rewrite <- append_cons, IH by (reflexivity || assumption). reflexivity.
Qed.

Lemma colorRegexp_digits ds :
  regexp.only_digits ds = true -> regexp.colorRegexp (ds +:+ "%") = None.
Proof.
  induction ds as [|c ds IH]; [reflexivity|].
  cbn [regexp.only_digits]. intros H. apply andb_true_iff in H as [Hc Hds].
  rewrite append_cons. cbn [regexp.colorRegexp].
  rewrite (is_digit_not_percent c Hc), (IH Hds).
  destruct ds as [|c' ds].
  - reflexivity.
  - cbn in Hds. apply andb_true_iff in Hds as [Hc' _].
    rewrite append_cons. unfold regexp.optional_percent.
    now rewrite (spaces_digits_percent_digit _ _ (is_digit_not_space c' Hc')).
Qed.

Lemma colorRegexp_name name ds :
  name <> "" -> no_percent name = true -> regexp.all_digits ds = true ->
  regexp.colorRegexp (name +:+ " " +:+ ds +:+ "%") = Some (name, ds).
Proof.
  intros Hne Hname Hds.
  pose proof Hds as Hds'. unfold regexp.all_digits in Hds'.
  apply andb_true_iff in Hds' as [Hnonempty Honly].
  destruct ds as [|d ds]; [discriminate|].
  pose proof Honly as Hd. cbn in Hd. apply andb_true_iff in Hd as [Hd _].
  assert (Hrest : regexp.spaces_digits_percent (String d ds +:+ "%") = None).
  { rewrite append_cons.
    apply spaces_digits_percent_digit, is_digit_not_space, Hd. }
  induction name as [|c name IH]; [contradiction|].
  cbn in Hname. apply andb_true_iff in Hname as [Hc Hname].
  apply negb_true_iff in Hc.
  rewrite append_cons. cbn [regexp.colorRegexp]. rewrite Hc.
  destruct name as [|c' name].
  - change ("" +:+ " " +:+ String d ds +:+ "%")
      with (String " " (String d ds +:+ "%")).
    cbn [regexp.colorRegexp]. change (Ascii.eqb " " "%") with false. cbn iota.
    rewrite (colorRegexp_digits (String d ds) Honly).
    replace (regexp.optional_percent (String d ds +:+ "%")) with (@None string)
      by (rewrite append_cons; cbn; now rewrite (is_digit_not_space d Hd)).
    unfold regexp.optional_percent. cbn [regexp.spaces_digits_percent].
    change (regexp.is_space " ") with true. cbn iota.
    now rewrite Hrest, (digits_percent_ok (String d ds) Hds).
  - now rewrite IH.
Qed.

Lemma scalePercent_near_table :
  forallb (fun percent =>
             forallb (scalePercent_near (percentFactor percent) percent)
               (seqZ 0 256))
    (seqZ 0 101) = true.
Proof. vm_compute. reflexivity. Qed.

Lemma scalePercent_exact_table :
  forallb (fun percent =>
             forallb (scalePercent_exact (percentFactor percent) percent)
               (seqZ 0 256))
    [0; 50; 100] = true.
Proof. vm_compute. reflexivity. Qed.

Lemma forallb_seqZ (P : Z -> bool) m n x :
  forallb P (seqZ m n) = true -> m <= x < m + n -> P x = true.
Proof.
  intros Hall Hx. rewrite forallb_forall in Hall. apply Hall.
  apply list_elem_of_In, elem_of_seqZ. exact Hx.
Qed.

Lemma scalePercent_near_spec p percent channel :
  scalePercent_near p percent channel = true ->
  channel * percent / 100 - 1 <= scaleChannel channel p
  <= channel * percent / 100.
Proof.
  unfold scalePercent_near. intros H.
  apply andb_true_iff in H as [H1 H2]. apply Z.leb_le in H1, H2. lia.
Qed.

Lemma scalePercent_near_range channel percent :
  0 <= channel <= 255 -> 0 <= percent <= 100 ->
  channel * percent / 100 - 1 <= scalePercent channel percent
  <= channel * percent / 100.
Proof.
  intros Hc Hp. apply scalePercent_near_spec.
  apply (forallb_seqZ (scalePercent_near (percentFactor percent) percent) 0 256);
    [|lia].
  apply (forallb_seqZ
           (fun percent =>
              forallb (scalePercent_near (percentFactor percent) percent)
                (seqZ 0 256)) 0 101 percent); [|lia].
  exact scalePercent_near_table.
Qed.

Lemma scalePercent_exact_range channel percent :
  0 <= channel <= 255 -> percent = 0 \/ percent = 50 \/ percent = 100 ->
  scalePercent channel percent = channel * percent / 100.
Proof.
  intros Hc Hp. apply Z.eqb_eq.
  apply (forallb_seqZ (scalePercent_exact (percentFactor percent) percent) 0 256);
    [|lia].
  assert (Hin : In percent [0; 50; 100]) by (cbn; lia).
  exact (proj1 (forallb_forall
                  (fun percent =>
                     forallb (scalePercent_exact (percentFactor percent) percent)
                       (seqZ 0 256)) [0; 50; 100])
           scalePercent_exact_table percent Hin).
Qed.

Lemma resolveColor_name_percent colors name ds percent c lineNo :
  name <> "" -> no_percent name = true -> regexp.all_digits ds = true ->
  colors !! name = Some c -> strconv.Atoi ds = Some percent ->
  resolveColor colors (name +:+ " " +:+ ds +:+ "%") lineNo
  = Ok [strconv.itoa (scalePercent (r c) percent);
        strconv.itoa (scalePercent (g c) percent);
        strconv.itoa (scalePercent (b c) percent)].
Proof.
  intros Hne Hname Hds Hc Hpercent. unfold resolveColor.
  rewrite (colorRegexp_name name ds Hne Hname Hds), Hc.
  unfold regexp.all_digits in Hds. apply andb_true_iff in Hds as [Hds _].
  apply negb_true_iff in Hds. rewrite Hds.
  unfold parseNumber. rewrite Hpercent. reflexivity.
Qed.

(** C9, as the code has it: resolving [name percent%] (one space between
    the name and the digits of the percentage) sets each channel [ch] of
    the color defined for [name] to [int(float64(ch) * (float64(percent) /
    100.0))]: the quotient and the product are rounded to binary64, and
    the fraction of the product is then dropped.  For channels in
    [0..255] and percentages in [0..100] the result is the exact
    [ch * percent / 100] rounded down, or one less; it is the exact one
    at 0, 50 and 100 percent.  [red 50%] with [red = (200,100,40)] yields
    [(100,50,20)] and [red 100%] yields [(200,100,40)]. *)
Theorem resolveColor_percent
  (colors : gmap string color) (name ds : string) (percent : Z) (c : color)
  (lineNo : Z) :
  name <> "" -> no_percent name = true -> regexp.all_digits ds = true ->
  colors !! name = Some c -> strconv.Atoi ds = Some percent ->
  resolveColor colors (name +:+ " " +:+ ds +:+ "%") lineNo
  = Ok [strconv.itoa (scalePercent (r c) percent);
        strconv.itoa (scalePercent (g c) percent);
        strconv.itoa (scalePercent (b c) percent)]
  /\ (forall ch, 0 <= ch <= 255 -> 0 <= percent <= 100 ->
        ch * percent / 100 - 1 <= scalePercent ch percent <= ch * percent / 100)
  /\ (forall ch, 0 <= ch <= 255 ->
        percent = 0 \/ percent = 50 \/ percent = 100 ->
        scalePercent ch percent = ch * percent / 100)
  /\ resolveColor {["red" := Color 200 100 40]} "red 50%" lineNo
     = Ok ["100"; "50"; "20"]
  /\ resolveColor {["red" := Color 200 100 40]} "red 100%" lineNo
     = Ok ["200"; "100"; "40"].
Proof.
  intros Hne Hname Hds Hc Hpercent.
  split; [now apply resolveColor_name_percent|].
  split; [intros ch; apply scalePercent_near_range|].
  split; [intros ch; apply scalePercent_exact_range|].
  split.
  - now rewrite (resolveColor_name_percent {["red" := Color 200 100 40]}
                   "red" "50" 50 (Color 200 100 40) lineNo).
  - now rewrite (resolveColor_name_percent {["red" := Color 200 100 40]}
                   "red" "100" 100 (Color 200 100 40) lineNo).
Qed.

Lemma resolveColor_percent_witness :
  resolveColor {["red" := Color 200 100 40]} "red 50%" 2 = Ok ["100"; "50"; "20"].
Proof.
  exact (proj1 (resolveColor_percent {["red" := Color 200 100 40]} "red" "50" 50
                  (Color 200 100 40) 2 ltac:(discriminate) eq_refl eq_refl
                  eq_refl eq_refl)).
Defined.

(** C9 fails where binary64 rounds the product down past an integer:
    [100] at 29 percent is 28, not 29. *)
Lemma resolveColor_percent_rounds_down :
  resolveColor {["red" := Color 100 100 100]} "red 29%" 0
  = Ok ["28"; "28"; "28"]
  /\ percentFactor 29 = S754_finite false 5224175567749775 (-54)
  /\ float64.mul (float64.of_int 100) (percentFactor 29)
     = S754_finite false 8162774324609023 (-48)
  /\ scalePercent 100 29 = 28
  /\ 100 * 29 / 100 = 29.
Proof. repeat split; vm_compute; reflexivity. Qed.

(** ** Line numbers in messages *)

Lemma parseCommand_lineNo budget lines i fs c j :
  parseCommand budget lines i fs = Some (Ok (c, j)) -> lineNo c = Z.of_nat i.
Proof.
  destruct budget as [|budget]; [discriminate|]. cbn [parseCommand].
  destruct (index lines i) as [lineVerbatim| |]; try discriminate.
  destruct (index fs 0) as [f0| |]; try discriminate.
  destruct (String.eqb f0 "E"); [discriminate|].
  destruct (isBlockCommand f0).
  - destruct (parseLines budget lines (i + 1)) as [[[subs k]| |]|];
      try discriminate.
    destruct (lines !! k); [|discriminate]. now intros [= <- _].
  - now intros [= <- _].
Qed.

(** C4 on the code: the number in a message is the index of the line in
    the input, which counts the first line as 0.  An error on the first
    line of the input is reported for line 0, and an error on the second
    line for line 1. *)
Theorem line_numbers_from_zero :
  compile ∅ ["D,x"] = IO [] (Fatal ("Error in line 0" +:+ nl))
  /\ compile ∅ ["D,5"; "E"] = IO [] (Fatal ("Error in line 1: E without L" +:+ nl))
  /\ compile ∅ ["D,5"; "TIME,3"]
     = IO [] (Fatal ("Error: Cannot go back in time - it's already 5 - in line 1"
                       +:+ nl))
  /\ forall budget lines i fs c j,
       parseCommand budget lines i fs = Some (Ok (c, j)) ->
       lineNo c = Z.of_nat i.
Proof.
  repeat split; try (vm_compute; reflexivity). apply parseCommand_lineNo.
Qed.

Lemma line_numbers_from_zero_witness :
  lineNo (leaf "D,x" 0 ["D"; "x"]) = Z.of_nat 0.
Proof.
  exact (proj2 (proj2 (proj2 line_numbers_from_zero)) 1%nat ["D,x"] 0%nat
           ["D"; "x"] (leaf "D,x" 0 ["D"; "x"]) 1%nat eq_refl).
Defined.

(** ** The parser and the nesting of blocks *)

Lemma Split_nonempty s sep : strings.Split s sep <> [].
Proof.
  destruct s as [|c s]; cbn; [discriminate|].
  destruct (Ascii.eqb c sep); [discriminate|].
  destruct (strings.Split s sep); discriminate.
Qed.

Lemma splitLine_opcode l : exists more, splitLine l = lineOpcode l :: more.
Proof.
  unfold lineOpcode. destruct (splitLine l) as [|f0 more] eqn:H; [|now exists more].
  unfold splitLine in H. apply fmap_nil_inv in H. now apply Split_nonempty in H.
Qed.

Lemma index_splitLine l : index (splitLine l) 0 = Ok (lineOpcode l).
Proof. destruct (splitLine_opcode l) as [more ->]. reflexivity. Qed.

Lemma scan_stray depth ls rest :
  scan depth ls = Stray rest ->
  exists pre l, ls = pre ++ l :: rest /\ lineOpcode l = "E".
Proof.
  revert depth. induction ls as [|l ls IH]; intros depth; cbn [scan]; [discriminate|].
  destruct (String.eqb_spec (lineOpcode l) "E") as [HE|_].
  - destruct depth as [|depth].
    + intros [= <-]. now exists [], l.
    + intros H. destruct (IH _ H) as (pre & l' & -> & Hl').
      now exists (l :: pre), l'.
  - destruct (isBlockCommand (lineOpcode l)); intros H;
      destruct (IH _ H) as (pre & l' & -> & Hl'); now exists (l :: pre), l'.
Qed.

(** Scanning inside [d + 1] more blocks: the first stray [E] closes one
    of them. *)
Lemma scan_deeper d ls : forall e,
  scan (e + S d) ls
  = match scan e ls with
    | Stray rest => scan d rest
    | Ended k => Ended (k + S d)
    end.
Proof.
  induction ls as [|l ls IH]; intros e; cbn [scan]; [reflexivity|].
  destruct (String.eqb (lineOpcode l) "E").
  - destruct e as [|e]; cbn [Nat.add]; [reflexivity | apply IH].
  - destruct (isBlockCommand (lineOpcode l)).
    + apply (IH (S e)).
    + apply IH.
Qed.

Lemma agrees_cons len s c r :
  agrees len s r ->
  agrees len s match r with
               | Ok (commands, lineNo) => Ok (c :: commands, lineNo)
               | other => other
               end.
Proof.
  destruct s as [rest|[|d]]; cbn.
  - intros [cs ->]. now exists (c :: cs).
  - intros (cs & j & -> & Hj). now exists (c :: cs), j.
  - now intros ->.
Qed.

Lemma drop_suffix (lines : list string) i pre l rest :
  drop i lines = pre ++ l :: rest ->
  let k := (length lines - 1 - length rest)%nat in
  (i <= k)%nat /\ lines !! k = Some l /\ drop (S k) lines = rest
  /\ S k = (length lines - length rest)%nat.
Proof.
  intros H k.
  assert (Hlen : (length lines - i = length pre + S (length rest))%nat).
  { rewrite <- length_drop, H, length_app. reflexivity. }
  assert (Hk : k = (i + length pre)%nat) by (unfold k; lia).
  split; [lia|]. split; [|split; [|lia]].
  - rewrite Hk, <- lookup_drop, H. now rewrite list_lookup_middle.
  - rewrite Hk. replace (S (i + length pre)) with (i + S (length pre))%nat by lia.
    rewrite <- drop_drop, H.
    change (pre ++ l :: rest) with (pre ++ [l] ++ rest).
    rewrite app_assoc. apply drop_app_length'. rewrite length_app. cbn. lia.
Qed.

Lemma parse_scan (lines : list string) (budget : nat) :
  (forall i r,
     (i <= length lines)%nat ->
     parseLines budget lines i = Some r ->
     agrees (length lines) (scan 0 (drop i lines)) r)
  /\ (forall i lv r,
        lines !! i = Some lv -> lineOpcode lv <> "E" ->
        parseCommand budget lines i (splitLine lv) = Some r ->
        if isBlockCommand (lineOpcode lv) then
          match scan 0 (drop (S i) lines) with
          | Stray rest => exists c, r = Ok (c, (length lines - length rest)%nat)
          | Ended _ => r = Fatal errUnterminated
          end
        else exists c, r = Ok (c, S i)).
Proof.
  induction budget as [|budget [IHlines IHcommand]]; [split; discriminate|].
  split.
  - intros i r Hi. cbn [parseLines].
    destruct (lines !! i) as [lv|] eqn:Hlv.
    2:{ intros [= <-]. apply lookup_ge_None in Hlv.
        rewrite drop_ge by lia. cbn. exists [], i. split; [reflexivity | lia]. }
    pose proof (lookup_lt_Some _ _ _ Hlv) as Hlt.
    rewrite (drop_S _ _ _ Hlv), index_splitLine. cbn [scan].
    destruct (String.eqb_spec (lineOpcode lv) "E") as [HE|HE].
    { intros [= <-]. cbn. exists []. do 2 f_equal. rewrite length_drop. lia. }
    destruct (parseCommand budget lines i (splitLine lv)) as [rc|] eqn:Hrc;
      [|discriminate].
    pose proof (IHcommand i lv rc Hlv HE Hrc) as Hc.
    destruct (isBlockCommand (lineOpcode lv)).
    + pose proof (scan_deeper 0 (drop (S i) lines) 0) as Hd.
      cbn [Nat.add] in Hd. rewrite Hd. clear Hd.
      destruct (scan 0 (drop (S i) lines)) as [rest|k] eqn:Hscan.
      * destruct Hc as [c ->].
        destruct (scan_stray _ _ _ Hscan) as (pre & l & Hpre & _).
        destruct (drop_suffix lines (S i) pre l rest Hpre) as (_ & _ & Hrest & Hk).
        cbv zeta in Hk. rewrite <- Hk.
        destruct (parseLines budget lines _) as [r'|] eqn:Hr'.
        2:{ discriminate. }
        intros Hr. rewrite <- Hrest.
        assert (r = match r' with
                    | Ok (commands, lineNo) => Ok (c :: commands, lineNo)
                    | other => other
                    end) as ->.
        { destruct r' as [[cs j]| |]; now injection Hr. }
        apply agrees_cons. apply IHlines; [lia | exact Hr'].
      * subst rc. intros [= <-]. cbn. now rewrite Nat.add_1_r.
    + destruct Hc as [c ->].
      destruct (parseLines budget lines (S i)) as [r'|] eqn:Hr'; [|discriminate].
      intros Hr.
      assert (r = match r' with
                  | Ok (commands, lineNo) => Ok (c :: commands, lineNo)
                  | other => other
                  end) as ->.
      { destruct r' as [[cs j]| |]; now injection Hr. }
      apply agrees_cons. apply IHlines; [lia | exact Hr'].
  - intros i lv r Hlv HE. cbn [parseCommand].
    pose proof (lookup_lt_Some _ _ _ Hlv) as Hlt.
    unfold index at 1. rewrite Hlv, index_splitLine.
    destruct (String.eqb_spec (lineOpcode lv) "E") as [|_]; [contradiction|].
    destruct (isBlockCommand (lineOpcode lv)); [|intros [= <-]; eexists; f_equal; f_equal; lia].
    rewrite Nat.add_1_r.
    destruct (parseLines budget lines (S i)) as [r'|] eqn:Hr'; [|discriminate].
    pose proof (IHlines (S i) r' ltac:(lia) Hr') as Hagree.
    destruct (scan 0 (drop (S i) lines)) as [rest|[|d]] eqn:Hscan; cbn in Hagree.
    + destruct Hagree as [cs ->].
      destruct (scan_stray _ _ _ Hscan) as (pre & l & Hpre & _).
      destruct (drop_suffix lines (S i) pre l rest Hpre) as (_ & Hl & _ & Hk).
      rewrite Hl. intros [= <-]. eexists. do 2 f_equal. cbv zeta in Hk. lia.
    + destruct Hagree as (cs & j & -> & Hj).
      rewrite (proj2 (lookup_ge_None lines j) Hj). now intros [= <-].
    + subst r'. now intros [= <-].
Qed.

Lemma parseProgram_eq lines cs j :
  parseLines (2 * length lines + 1) lines 0 = Some (Ok (cs, j)) ->
  parseProgram lines
  = if (j <? length lines)%nat then Fatal (errStrayE j) else Ok cs.
Proof. intros H. unfold parseProgram. rewrite H. reflexivity. Qed.

(** X1: the outcome of the parser is decided by the nesting of the block
    lines alone.  An [E] line that closes no block stops the parser with
    "E without L" and the index of that line; an input that ends inside a
    block stops it with "unterminated loop"; every other input parses.
    In particular the parser never panics. *)
Theorem parseProgram_outcome (lines : list string) :
  match scan 0 lines with
  | Stray rest =>
      parseProgram lines = Fatal (errStrayE (length lines - 1 - length rest))
  | Ended O => exists p, parseProgram lines = Ok p
  | Ended (S _) => parseProgram lines = Fatal errUnterminated
  end.
Proof.
  destruct (parseLines_total lines) as [r Hr].
  pose proof (proj1 (parse_scan lines _) 0%nat r ltac:(lia) Hr) as Hagree.
  rewrite drop_0 in Hagree.
  destruct (scan 0 lines) as [rest|[|d]] eqn:Hscan; cbn in Hagree.
  - destruct Hagree as [cs ->].
    destruct (scan_stray _ _ _ Hscan) as (pre & l & Hpre & _).
    assert (Hlt : (length lines - 1 - length rest < length lines)%nat).
    { rewrite Hpre, length_app. cbn. lia. }
    apply Nat.ltb_lt in Hlt. now rewrite (parseProgram_eq _ _ _ Hr), Hlt.
  - destruct Hagree as (cs & j & -> & Hj). exists cs.
    apply Nat.ltb_ge in Hj. now rewrite (parseProgram_eq _ _ _ Hr), Hj.
  - subst r. unfold parseProgram. now rewrite Hr.
Qed.

(** ** What parsed commands look like *)

Lemma wellParsed_eq lines c :
  wellParsed lines c
  = ((0 <=? lineNo c)
     && bool_decide (lines !! Z.to_nat (lineNo c) = Some (line c))
     && bool_decide (fields c = splitLine (line c))
     && negb (String.eqb (lineOpcode (line c)) "E")
     && (if isBlockCommand (lineOpcode (line c))
         then String.eqb (lineOpcode (endLine c)) "E"
              && forallb (wellParsed lines) (subCommands c)
         else match subCommands c with
              | [] => String.eqb (endLine c) ""
              | _ => false
              end)).
Proof. destruct c; reflexivity. Qed.

Lemma parse_wellParsed (lines : list string) (budget : nat) :
  (forall i cs j,
     parseLines budget lines i = Some (Ok (cs, j)) ->
     forallb (wellParsed lines) cs = true
     /\ forall l, lines !! j = Some l -> lineOpcode l = "E")
  /\ (forall i lv c j,
        lines !! i = Some lv -> lineOpcode lv <> "E" ->
        parseCommand budget lines i (splitLine lv) = Some (Ok (c, j)) ->
        wellParsed lines c = true).
Proof.
  induction budget as [|budget [IHlines IHcommand]]; [split; discriminate|].
  split.
  - intros i cs j. cbn [parseLines].
    destruct (lines !! i) as [lv|] eqn:Hlv.
    2:{ intros [= <- <-]. split; [reflexivity|]. intros l Hl. congruence. }
    rewrite index_splitLine.
    destruct (String.eqb_spec (lineOpcode lv) "E") as [HE|HE].
    { intros [= <- <-]. split; [reflexivity|]. intros l Hl. congruence. }
    destruct (parseCommand budget lines i _) as [[[c k]| |]|] eqn:Hc;
      try discriminate.
    destruct (parseLines budget lines k) as [[[cs' j']| |]|] eqn:Hcs;
      try discriminate.
    intros [= <- <-].
    destruct (IHlines _ _ _ Hcs) as [Hall Hstop].
    split; [|exact Hstop].
    cbn [forallb]. now rewrite (IHcommand _ _ _ _ Hlv HE Hc), Hall.
  - intros i lv c j Hlv HE. cbn [parseCommand].
    unfold index at 1. rewrite Hlv, index_splitLine.
    destruct (String.eqb_spec (lineOpcode lv) "E") as [|_]; [contradiction|].
    assert (Hhead : forall e subs,
      wellParsed lines (Command lv e (Z.of_nat i) (splitLine lv) subs)
      = if isBlockCommand (lineOpcode lv)
        then String.eqb (lineOpcode e) "E" && forallb (wellParsed lines) subs
        else match subs with [] => String.eqb e "" | _ => false end).
    { intros e subs. rewrite wellParsed_eq. cbn [lineNo line fields endLine subCommands].
      rewrite Nat2Z.id, !bool_decide_eq_true_2 by (assumption || reflexivity).
      destruct (Z.leb_spec 0 (Z.of_nat i)); [|lia].
      destruct (String.eqb_spec (lineOpcode lv) "E"); [contradiction | reflexivity]. }
    destruct (isBlockCommand (lineOpcode lv)) eqn:Hblock.
    + destruct (parseLines budget lines (i + 1)) as [[[subs k]| |]|] eqn:Hsubs;
        try discriminate.
      destruct (lines !! k) as [closing|] eqn:Hk; [|discriminate].
      intros [= <- <-]. rewrite Hhead.
      destruct (IHlines _ _ _ Hsubs) as [Hall Hstop].
      now rewrite Hall, (Hstop closing Hk).
    + intros [= <- <-]. now rewrite Hhead.
Qed.

Lemma wellParsed_hasOpcodes lines : forall c,
  wellParsed lines c = true -> hasOpcodes c = true.
Proof.
  induction c as [l e n f subs IH] using command_ind.
  rewrite wellParsed_eq, hasOpcodes_eq. cbn [fields subCommands line endLine lineNo].
  intros H. apply andb_true_iff in H as [H Hsubs].
  apply andb_true_iff in H as [H _]. apply andb_true_iff in H as [_ Hf].
  apply bool_decide_eq_true in Hf. subst f.
  unfold lineOpcode in Hsubs. destruct (splitLine_opcode l) as [more Hsplit].
  rewrite Hsplit in *. destruct (isBlockCommand (lineOpcode l)); [|reflexivity].
  apply andb_true_iff in Hsubs as [_ Hsubs].
  clear -IH Hsubs. induction IH as [|sc subs Hsc _ IHsubs]; [reflexivity|].
  cbn in Hsubs |- *. apply andb_true_iff in Hsubs as [? ?].
  now rewrite Hsc, IHsubs.
Qed.

(** X2: every command of a parsed program, at any depth, is numbered with
    the index of its own line in the input, has the split of that line as
    its fields, and has an opcode other than [E]; a block command carries
    the [E] line that closed it, and a command that is no block has no
    children and no closing line.  In particular every command of a
    parsed program has an opcode. *)
Theorem parseProgram_wellParsed (lines : list string) (p : program) :
  parseProgram lines = Ok p ->
  forallb (wellParsed lines) p = true /\ forallb hasOpcodes p = true.
Proof.
  unfold parseProgram.
  destruct (parseLines _ lines 0) as [[[cs j]| |]|] eqn:Hparse; try discriminate.
  change (Ok (cs, j) ≫= _)
    with (if (j <? length lines)%nat then @Fatal program (errStrayE j) else Ok cs).
  destruct (j <? length lines)%nat; [discriminate|]. intros [= <-].
  pose proof (proj1 (proj1 (parse_wellParsed lines _) _ _ _ Hparse)) as Hwp.
  split; [exact Hwp|].
  clear -Hwp. induction cs as [|c cs IH]; [reflexivity|].
  cbn in Hwp |- *. apply andb_true_iff in Hwp as [Hc Hwp].
  now rewrite (wellParsed_hasOpcodes lines c Hc), IH.
Qed.

Lemma parseProgram_wellParsed_witness :
  forallb (wellParsed ["L,2"; "D,1 ; one"; "E"])
    [Command "L,2" "E" 0 ["L"; "2"] [leaf "D,1 ; one" 1 ["D"; "1"]]] = true.
Proof.
  apply (proj1 (parseProgram_wellParsed ["L,2"; "D,1 ; one"; "E"] _ eq_refl)).
Defined.

(** ** The fields of a line *)

Lemma lacks_app c a b : lacks c (a +:+ b) = lacks c a && lacks c b.
Proof.
  induction a as [|x a IH]; [reflexivity|].
  rewrite append_cons. cbn [lacks]. now rewrite IH, andb_assoc.
Qed.

Lemma lacks_TrimLeft c s cut : lacks c s = true -> lacks c (strings.TrimLeft s cut) = true.
Proof.
  induction s as [|x s IH]; [reflexivity|]. cbn [strings.TrimLeft].
  destruct (strings.in_cutset cut x); [|auto].
  cbn [lacks]. intros H. apply andb_true_iff in H as [_ H]. auto.
Qed.

Lemma lacks_TrimRight c s cut : lacks c s = true -> lacks c (strings.TrimRight s cut) = true.
Proof.
  induction s as [|x s IH]; [reflexivity|]. cbn [strings.TrimRight lacks].
  intros H. apply andb_true_iff in H as [Hx H]. specialize (IH H).
  destruct (strings.TrimRight s cut) as [|y r].
  - destruct (strings.in_cutset cut x); [reflexivity|]. cbn. now rewrite Hx.
  - cbn [lacks] in *. now rewrite Hx, IH.
Qed.

Lemma lacks_Trim c s cut : lacks c s = true -> lacks c (strings.Trim s cut) = true.
Proof. intros H. now apply lacks_TrimRight, lacks_TrimLeft. Qed.

Lemma Split_cons s sep : exists piece pieces, strings.Split s sep = piece :: pieces.
Proof.
  destruct (strings.Split s sep) as [|piece pieces] eqn:H;
    [now apply Split_nonempty in H | eauto].
Qed.

Lemma Split_lack_sep s sep :
  Forall (fun piece => lacks sep piece = true) (strings.Split s sep).
Proof.
  induction s as [|x s IH]; cbn [strings.Split]; [now repeat constructor|].
  destruct (Ascii.eqb x sep) eqn:Hx; [now constructor|].
  destruct (strings.Split s sep) as [|piece pieces]; [repeat constructor; cbn; now rewrite Hx|].
  inversion IH as [|? ? Hpiece Hpieces]; subst. constructor; [|assumption].
  cbn. now rewrite Hx, Hpiece.
Qed.

Lemma Split_lacks c s sep :
  lacks c s = true -> Forall (fun piece => lacks c piece = true) (strings.Split s sep).
Proof.
  induction s as [|x s IH]; cbn [strings.Split lacks]; [now repeat constructor|].
  intros H. apply andb_true_iff in H as [Hx H]. specialize (IH H).
  destruct (Ascii.eqb x sep); [now constructor|].
  destruct (strings.Split s sep) as [|piece pieces]; [repeat constructor; cbn; now rewrite Hx|].
  inversion IH as [|? ? Hpiece Hpieces]; subst. constructor; [|assumption].
  cbn. now rewrite Hx, Hpiece.
Qed.

(** What precedes the first semicolon has none. *)
Lemma prefix_char a b s : String.prefix (String a "") (String b s) = Ascii.eqb a b.
Proof.
  destruct (Ascii.eqb_spec a b) as [->|Hne].
  - apply prefix_correct. cbn. now destruct s.
  - destruct (String.prefix (String a "") (String b s)) eqn:H; [|reflexivity].
    apply prefix_correct in H. cbn in H. destruct s; congruence.
Qed.

Lemma index_char_cons c b s :
  String.index 0 (String c "") (String b s)
  = if Ascii.eqb c b then Some 0%nat
    else S <$> String.index 0 (String c "") s.
Proof.
  cbn [String.index]. rewrite prefix_char.
  destruct (Ascii.eqb c b); [reflexivity|].
  now destruct (String.index 0 (String c "") s).
Qed.

Lemma index_lacks c s :
  match String.index 0 (String c "") s with
  | Some i => lacks c (String.substring 0 i s) = true
  | None => lacks c s = true
  end.
Proof.
  induction s as [|b s IH]; [reflexivity|].
  rewrite index_char_cons. rewrite (Ascii.eqb_sym c b).
  destruct (Ascii.eqb b c) eqn:Hb; [reflexivity|].
  destruct (String.index 0 (String c "") s) as [i|]; cbn; now rewrite Hb.
Qed.

Lemma lacks_index c s : lacks c s = true -> String.index 0 (String c "") s = None.
Proof.
  induction s as [|b s IH]; [reflexivity|]. cbn [lacks]. intros H.
  apply andb_true_iff in H as [Hb H]. apply negb_true_iff in Hb.
  rewrite index_char_cons, (Ascii.eqb_sym c b), Hb, (IH H). reflexivity.
Qed.

(** Trimming twice is trimming once. *)
Lemma head_ok_TrimLeft s : head_ok (strings.TrimLeft s blanks) = true.
Proof.
  induction s as [|c s IH]; [reflexivity|]. cbn [strings.TrimLeft].
  destruct (strings.in_cutset blanks c) eqn:Hc; [exact IH|]. cbn. now rewrite Hc.
Qed.

Lemma TrimLeft_head_ok s : head_ok s = true -> strings.TrimLeft s blanks = s.
Proof.
  destruct s as [|c s]; [reflexivity|]. cbn. intros H.
  apply negb_true_iff in H. now rewrite H.
Qed.

Lemma head_ok_TrimRight s : head_ok s = true -> head_ok (strings.TrimRight s blanks) = true.
Proof.
  destruct s as [|c s]; [reflexivity|]. cbn [head_ok strings.TrimRight]. intros H.
  apply negb_true_iff in H.
  destruct (strings.TrimRight s blanks); rewrite ?H; cbn; now rewrite H.
Qed.

Lemma TrimRight_cons c s cut :
  strings.TrimRight (String c s) cut
  = match strings.TrimRight s cut with
    | EmptyString => if strings.in_cutset cut c then "" else String c ""
    | rest => String c rest
    end.
Proof. reflexivity. Qed.

Lemma TrimRight_idem s :
  strings.TrimRight (strings.TrimRight s blanks) blanks = strings.TrimRight s blanks.
Proof.
  induction s as [|c s IH]; [reflexivity|]. cbn [strings.TrimRight].
  destruct (strings.TrimRight s blanks) as [|c' r] eqn:Hr.
  - destruct (strings.in_cutset blanks c) eqn:Hc; [reflexivity|].
    cbn. now rewrite Hc.
  - now rewrite TrimRight_cons, IH.
Qed.

Lemma Trim_idem s : strings.Trim (strings.Trim s blanks) blanks = strings.Trim s blanks.
Proof.
  unfold strings.Trim.
  rewrite (TrimLeft_head_ok (strings.TrimRight _ _))
    by apply head_ok_TrimRight, head_ok_TrimLeft.
  apply TrimRight_idem.
Qed.

Lemma Trim_fixed s :
  strings.Trim s blanks = s <->
  head_ok s = true /\ strings.TrimRight s blanks = s.
Proof.
  split.
  - intros H. split.
    + rewrite <- H. apply head_ok_TrimRight, head_ok_TrimLeft.
    + rewrite <- H at 1. unfold strings.Trim. now rewrite TrimRight_idem.
  - intros [Hh Hr]. unfold strings.Trim. now rewrite TrimLeft_head_ok.
Qed.

Lemma splitLine_fields_clean l :
  Forall (fun f => cleanField f = true) (splitLine l).
Proof.
  unfold splitLine. set (line := if strings.Contains l ";" then _ else _).
  assert (Hsemi : lacks ";" line = true).
  { unfold line, strings.Contains, strings.Index.
    pose proof (index_lacks ";" l) as H.
    now destruct (String.index 0 ";" l). }
  pose proof (Split_lacks ";" _ "," (lacks_Trim ";" line blanks Hsemi)) as H1.
  pose proof (Split_lack_sep (strings.Trim line blanks) ",") as H2.
  apply Forall_fmap. revert H1 H2. generalize (strings.Split (strings.Trim line blanks) ",").
  intros pieces H1 H2. induction pieces as [|piece pieces IH]; [constructor|].
  inversion H1; inversion H2; subst. constructor; [|auto].
  cbn. unfold cleanField.
  rewrite !lacks_Trim, Trim_idem, String.eqb_refl by assumption. reflexivity.
Qed.

(** X3: whatever the line, [splitLine] gives at least one field, and
    every field is free of commas and of semicolons and has no space or
    tab at either end. *)
Theorem splitLine_clean (l : string) :
  splitLine l <> [] /\ Forall (fun f => cleanField f = true) (splitLine l).
Proof.
  split; [|apply splitLine_fields_clean].
  destruct (splitLine_opcode l) as [more ->]. discriminate.
Qed.

Lemma Split_lacks_sep s sep : lacks sep s = true -> strings.Split s sep = [s].
Proof.
  induction s as [|x s IH]; [reflexivity|]. cbn [lacks strings.Split].
  intros H. apply andb_true_iff in H as [Hx H]. apply negb_true_iff in Hx.
  now rewrite Hx, (IH H).
Qed.

Lemma Split_app a b sep :
  lacks sep a = true ->
  strings.Split (a +:+ String sep b) sep = a :: strings.Split b sep.
Proof.
  induction a as [|x a IH]; cbn [lacks].
  - intros _. change ("" +:+ String sep b) with (String sep b).
    cbn [strings.Split]. now rewrite Ascii.eqb_refl.
  - intros H. apply andb_true_iff in H as [Hx H]. apply negb_true_iff in Hx.
    rewrite append_cons. cbn [strings.Split]. now rewrite Hx, (IH H).
Qed.

Lemma Join_cons f g fs :
  strings.Join (f :: g :: fs) "," = f +:+ String "," (strings.Join (g :: fs) ",").
Proof. reflexivity. Qed.

Lemma TrimRight_app a b :
  b <> "" -> strings.TrimRight b blanks = b ->
  strings.TrimRight (a +:+ b) blanks = a +:+ b.
Proof.
  intros Hne Hb. induction a as [|x a IH]; [exact Hb|].
  rewrite append_cons. cbn [strings.TrimRight]. rewrite IH.
  destruct (a +:+ b) eqn:Hab; [|reflexivity].
  destruct a; [contradiction | discriminate].
Qed.

Lemma TrimRight_comma s :
  strings.TrimRight s blanks = s ->
  strings.TrimRight (String "," s) blanks = String "," s.
Proof. intros H. cbn [strings.TrimRight]. rewrite H. now destruct s. Qed.

Lemma Join_fields fs :
  fs <> [] -> Forall (fun f => cleanField f = true) fs ->
  lacks ";" (strings.Join fs ",") = true
  /\ strings.TrimRight (strings.Join fs ",") blanks = strings.Join fs ","
  /\ head_ok (strings.Join fs ",") = true
  /\ strings.Split (strings.Join fs ",") "," = fs.
Proof.
  intros Hne Hall. induction Hall as [|f fs Hf Hfs IH]; [contradiction|]. clear Hne.
  unfold cleanField in Hf. apply andb_true_iff in Hf as [Hf Htrim].
  apply andb_true_iff in Hf as [Hcomma Hsemi].
  apply String.eqb_eq, Trim_fixed in Htrim as [Hhead Hright].
  destruct fs as [|g fs].
  - cbn [strings.Join String.concat]. now rewrite (Split_lacks_sep f "," Hcomma).
  - destruct (IH ltac:(discriminate)) as (IHsemi & IHright & IHhead & IHsplit).
    rewrite Join_cons. repeat split.
    + rewrite lacks_app, Hsemi. cbn [lacks]. now rewrite IHsemi.
    + apply TrimRight_app; [discriminate | now apply TrimRight_comma].
    + destruct f; [reflexivity | exact Hhead].
    + now rewrite (Split_app f _ "," Hcomma), IHsplit.
Qed.

Lemma splitLine_Join_fields fs :
  fs <> [] -> Forall (fun f => cleanField f = true) fs ->
  splitLine (strings.Join fs ",") = fs.
Proof.
  intros Hne Hall.
  destruct (Join_fields fs Hne Hall) as (Hsemi & Hright & Hhead & Hsplit).
  unfold splitLine, strings.Contains, strings.Index.
  rewrite (lacks_index ";" _ Hsemi).
  rewrite (proj2 (Trim_fixed _) (conj Hhead Hright)), Hsplit.
  clear -Hall. induction Hall as [|f fs Hf _ IH]; [reflexivity|].
  cbn [fmap list_fmap]. f_equal; [|exact IH].
  unfold cleanField in Hf. apply andb_true_iff in Hf as [_ Hf].
  now apply String.eqb_eq in Hf.
Qed.

(** X4: joining clean fields with commas and splitting the line again
    gives the fields back. *)
Theorem splitLine_Join (fs : list string) :
  fs <> [] -> Forall (fun f => cleanField f = true) fs ->
  splitLine (strings.Join fs ",") = fs.
Proof. apply splitLine_Join_fields. Qed.

Lemma splitLine_Join_witness :
  splitLine (strings.Join ["RAMP"; "dark red 50%"; "100"] ",")
  = ["RAMP"; "dark red 50%"; "100"].
Proof.
  apply splitLine_Join; [discriminate|].
  repeat constructor.
Defined.

(** ** After the Time Resolver *)

Lemma wrap_shift z : exists k, Int.wrap z = z + 2 ^ 64 * k.
Proof.
  unfold Int.wrap. exists (- ((z + 2 ^ 63) / 2 ^ 64)).
  pose proof (Z.div_mod (z + 2 ^ 63) (2 ^ 64) ltac:(lia)). lia.
Qed.

Lemma wrap_shifted z k : Int.wrap (z + 2 ^ 64 * k) = Int.wrap z.
Proof.
  unfold Int.wrap. f_equal.
  replace (z + 2 ^ 64 * k + 2 ^ 63) with (z + 2 ^ 63 + k * 2 ^ 64) by lia.
  apply Z_mod_plus_full.
Qed.

Lemma add_sub time target :
  Int.in_range target = true -> Int.add time (Int.sub target time) = target.
Proof.
  intros Hr. unfold Int.add, Int.sub.
  destruct (wrap_shift (target - time)) as [k ->].
  replace (time + (target - time + 2 ^ 64 * k)) with (target + 2 ^ 64 * k) by lia.
  rewrite wrap_shifted. now apply wrap_in_range.
Qed.

Lemma sub_nonzero target time :
  Int.in_range target = true -> Int.in_range time = true -> target <> time ->
  Int.sub target time <> 0.
Proof.
  intros Ht Hti Hne. apply in_range_iff in Ht, Hti.
  unfold Int.min_int, Int.max_int in *. unfold Int.sub.
  destruct (wrap_shift (target - time)) as [k Hk].
  pose proof (wrap_range (target - time)) as Hw. apply in_range_iff in Hw.
  unfold Int.min_int, Int.max_int in Hw. lia.
Qed.

Lemma sumEach_defined {A} (f : A -> result Z) xs : forall acc t,
  sumEach f xs acc = Ok t -> Forall (fun x => exists d, f x = Ok d) xs.
Proof.
  induction xs as [|x xs IH]; intros acc t; cbn [sumEach]; [constructor|].
  destruct (f x) as [d| |] eqn:Hd; try discriminate. cbn.
  intros H. constructor; [now exists d | exact (IH _ _ H)].
Qed.

Lemma forEach_print_ok (cs : list command) :
  Forall (fun c => outcome (print c) = Ok tt) cs ->
  outcome (forEach print cs) = Ok tt.
Proof.
  induction 1 as [|c cs Hc _ IH]; [reflexivity|].
  cbn [forEach]. destruct (print c) as [out r]. cbn in Hc. subst r.
  rewrite io_bind_ok. exact IH.
Qed.

(** A command whose duration is defined can be printed. *)
Lemma duration_print : forall c d, duration c = Ok d -> outcome (print c) = Ok tt.
Proof.
  induction c as [l e n f subs IH] using command_ind. intros d Hd.
  destruct f as [|f0 more]; [discriminate|].
  destruct (isBlockCommand f0) eqn:Hblock.
  2:{ now rewrite (print_leaf (Command l e n (f0 :: more) subs) f0 more eq_refl Hblock). }
  assert (Hsubs : exists body, forEach print subs = IO body (Ok tt)).
  { assert (Hout : outcome (forEach print subs) = Ok tt).
    { apply forEach_print_ok. rewrite duration_eq in Hd.
      cbn [fields subCommands lineNo] in Hd. unfold hasSubCommands in Hd.
      cbn [fields] in Hd. cbn in Hd.
      destruct (String.eqb_spec f0 "D") as [->|_]; [discriminate|].
      destruct (String.eqb_spec f0 "RAMP") as [->|_]; [discriminate|].
      destruct (String.eqb_spec f0 "L") as [->|_].
      - destruct more as [|f1 more]; [discriminate|]. cbn in Hd.
        destruct (parseCount f1 n) as [count| |]; try discriminate. cbn in Hd.
        destruct (sumEach duration subs 0) as [t| |] eqn:Hsum; try discriminate.
        pose proof (sumEach_defined _ _ _ _ Hsum) as Hdef.
        clear -IH Hdef. induction IH as [|sc subs Hsc _ IHsubs]; [constructor|].
        inversion Hdef as [|? ? [d Hd] Hrest]; subst.
        constructor; [exact (Hsc d Hd) | auto].
      - destruct (String.eqb f0 "TIME"); [discriminate|].
        rewrite Hblock in Hd. discriminate. }
    destruct (forEach print subs) as [out r]. cbn in Hout. subst r. now exists out. }
  destruct Hsubs as [body Hbody].
  now rewrite (print_block (Command l e n (f0 :: more) subs) f0 more body eq_refl
                 Hblock Hbody).
Qed.

Lemma parseCount_ok f lineNo v :
  parseCount f lineNo = Ok v -> strconv.Atoi f = Some v /\ v <> 0.
Proof.
  unfold parseCount, parseNumber. destruct (strconv.Atoi f) as [n|]; [|discriminate].
  cbn. destruct (Z.eqb_spec n 0); [discriminate|]. now intros [= <-].
Qed.

(** One step of the walk, read backwards. *)
Lemma resolveTime_cons_inv time c p q :
  resolveTime_from time (c :: p) = Ok q ->
  (exists f more target,
     fields c = "TIME" :: f :: more /\ strconv.Atoi f = Some target
     /\ target <> 0
     /\ ((target = time /\ resolveTime_from time p = Ok q)
         \/ (time < target /\ exists rest,
               resolveTime_from target p = Ok rest
               /\ q = delayCommand (Int.sub target time) (lineNo c) :: rest)))
  \/ (exists op d rest,
        opcode c = Some op /\ op <> "TIME" /\ duration c = Ok d
        /\ resolveTime_from (Int.add time d) p = Ok rest /\ q = c :: rest).
Proof.
  cbn [resolveTime_from]. unfold opcode.
  destruct (fields c) as [|f0 more] eqn:Hf; [discriminate|]. cbn.
  destruct (String.eqb_spec f0 "TIME") as [->|Hop].
  - destruct more as [|f more]; cbn; [discriminate|].
    destruct (parseCount f (lineNo c)) as [target| |] eqn:Ht; try discriminate.
    apply parseCount_ok in Ht as [Ht Hnz]. cbn.
    destruct (Z.ltb_spec target time); [discriminate|].
    destruct (Z.eqb_spec target time) as [->|Hne].
    + intros Hq. left. exists f, more, time. auto 10.
    + destruct (resolveTime_from target p) as [rest| |] eqn:Hrest; try discriminate.
      intros [= <-]. left. exists f, more, target.
      repeat split; try assumption. right. split; [lia|]. now exists rest.
  - destruct (duration c) as [d| |] eqn:Hd; try discriminate. cbn.
    destruct (resolveTime_from (Int.add time d) p) as [rest| |] eqn:Hrest;
      try discriminate.
    intros [= <-]. right. exists f0, d, rest. auto.
Qed.

Lemma resolveTime_defined p : forall time q,
  Int.in_range time = true ->
  resolveTime_from time p = Ok q ->
  Forall (fun c => exists d, duration c = Ok d) q
  /\ Forall (fun c => opcode c <> Some "TIME") q.
Proof.
  induction p as [|c p IH]; intros time q Hr.
  { intros [= <-]. split; constructor. }
  intros Hq. apply resolveTime_cons_inv in Hq
    as [(f & more & target & Hf & Ht & Hnz & [[-> Hq] | [Hlt (rest & Hrest & ->)]])
       | (op & d & rest & Hop & Hne & Hd & Hrest & ->)].
  - exact (IH _ _ Hr Hq).
  - pose proof (Atoi_range _ _ Ht) as Htr.
    destruct (IH _ _ Htr Hrest) as [H1 H2].
    split; constructor; try assumption; [|discriminate].
    exists (Int.sub target time). apply duration_delayCommand; [apply wrap_range|].
    apply sub_nonzero; [assumption.. | lia].
  - destruct (IH _ _ (wrap_range _) Hrest) as [H1 H2].
    split; constructor; try assumption; [now exists d|].
    rewrite Hop. congruence.
Qed.

Lemma annotateTimes_defined q :
  Forall (fun c => exists d, duration c = Ok d) q ->
  forall time, outcome (annotateTimes_from time q) = Ok tt.
Proof.
  induction 1 as [|c q [d Hd] _ IH]; intros time; [reflexivity|].
  cbn [annotateTimes_from]. pose proof (duration_print c d Hd) as Hprint.
  destruct (print c) as [out r]. cbn in Hprint. subst r.
  rewrite io_bind_ok, Hd. cbn. destruct (0 <? d); cbn; apply IH.
Qed.

(** X5: when the Time Resolver succeeds, the program it returns has no
    [TIME] command left, every command of it has a duration, and the
    annotator runs over it to the end without an error. *)
Theorem resolveTime_annotates (p q : program) :
  resolveTime p = Ok q ->
  Forall (fun c => opcode c <> Some "TIME") q
  /\ Forall (fun c => exists d, duration c = Ok d) q
  /\ outcome (annotateTimes q) = Ok tt.
Proof.
  intros Hq. destruct (resolveTime_defined p 0 q eq_refl Hq) as [Hd Hop].
  repeat split; try assumption. now apply annotateTimes_defined.
Qed.

Lemma resolveTime_annotates_witness :
  outcome (annotateTimes [leaf "D,5" 0 ["D"; "5"]; delayCommand 5 1]) = Ok tt.
Proof.
  exact (proj2 (proj2 (resolveTime_annotates
                         [leaf "D,5" 0 ["D"; "5"]; timeLine 10 1]
                         [leaf "D,5" 0 ["D"; "5"]; delayCommand 5 1] eq_refl))).
Defined.

Lemma resolveTime_prefix p1 p2 : forall time q,
  resolveTime_from time (p1 ++ p2) = Ok q ->
  exists q1 q2, q = q1 ++ q2 /\ resolveTime_from time p1 = Ok q1.
Proof.
  induction p1 as [|c p1 IH]; intros time q; [now exists [], q|].
  rewrite <- app_comm_cons. intros Hq. apply resolveTime_cons_inv in Hq
    as [(f & more & target & Hf & Ht & Hnz & [[-> Hq] | [Hlt (rest & Hrest & ->)]])
       | (op & d & rest & Hop & Hne & Hd & Hrest & ->)].
  - destruct (IH _ _ Hq) as (q1 & q2 & -> & Hq1). exists q1, q2. split; [reflexivity|].
    rewrite (resolveTime_TIME _ _ _ _ _ _ Hf Ht).
    destruct (Z.eqb_spec time 0); [contradiction|].
    now rewrite Z.ltb_irrefl, Z.eqb_refl.
  - destruct (IH _ _ Hrest) as (q1 & q2 & -> & Hq1).
    exists (delayCommand (Int.sub target time) (lineNo c) :: q1), q2.
    split; [reflexivity|].
    rewrite (resolveTime_TIME _ _ _ _ _ _ Hf Ht), Hq1.
    destruct (Z.eqb_spec target 0); [contradiction|].
    destruct (Z.ltb_spec target time); [lia|].
    destruct (Z.eqb_spec target time); [lia | reflexivity].
  - destruct (IH _ _ Hrest) as (q1 & q2 & -> & Hq1).
    exists (c :: q1), q2. split; [reflexivity|].
    now rewrite (resolveTime_other _ _ _ _ _ Hop Hne Hd), Hq1.
Qed.

Lemma resolveTime_reaches pre c f more target : forall time q,
  fields c = "TIME" :: f :: more -> strconv.Atoi f = Some target ->
  Int.in_range time = true ->
  resolveTime_from time (pre ++ [c]) = Ok q ->
  sumEach duration q time = Ok target.
Proof.
  intros time q Hf Ht. revert time q.
  induction pre as [|c0 pre IH]; intros time q Hr Hq.
  - cbn [app] in Hq. rewrite (resolveTime_TIME _ _ _ _ _ _ Hf Ht) in Hq.
    destruct (Z.eqb_spec target 0); [discriminate|].
    destruct (Z.ltb_spec target time); [discriminate|].
    destruct (Z.eqb_spec target time) as [->|Hne].
    + now injection Hq as <-.
    + injection Hq as <-. cbn [sumEach].
      rewrite duration_delayCommand;
        [|apply wrap_range
         |apply sub_nonzero; [exact (Atoi_range _ _ Ht) | assumption..]].
      cbn. now rewrite add_sub by exact (Atoi_range _ _ Ht).
  - rewrite <- app_comm_cons in Hq. apply resolveTime_cons_inv in Hq
      as [(f' & more' & target' & Hf' & Ht' & Hnz & [[-> Hq] | [Hlt (rest & Hrest & ->)]])
         | (op & d & rest & Hop & Hne & Hd & Hrest & ->)].
    + exact (IH _ _ Hr Hq).
    + pose proof (Atoi_range _ _ Ht') as Hr'. cbn [sumEach].
      rewrite duration_delayCommand;
        [|apply wrap_range | apply sub_nonzero; [assumption.. | lia]].
      cbn. rewrite add_sub by assumption. exact (IH _ _ Hr' Hrest).
    + cbn [sumEach]. rewrite Hd. cbn. exact (IH _ _ (wrap_range _) Hrest).
Qed.

(** X6: a [TIME,target] line is reached on time.  When the Time Resolver
    succeeds on a program, the commands that it emits for the part of the
    program up to and including a [TIME,target] line are a prefix of its
    result, and their durations add up, in [int] arithmetic, to exactly
    [target]. *)
Theorem resolveTime_on_time (pre post : program) (c : command)
  (f : string) (more : list string) (target : Z) (q : program) :
  fields c = "TIME" :: f :: more -> strconv.Atoi f = Some target ->
  resolveTime (pre ++ c :: post) = Ok q ->
  exists q1 q2,
    q = q1 ++ q2 /\ resolveTime (pre ++ [c]) = Ok q1
    /\ sumEach duration q1 0 = Ok target.
Proof.
  intros Hf Ht Hq. unfold resolveTime in *.
  change (c :: post) with ([c] ++ post) in Hq. rewrite app_assoc in Hq.
  destruct (resolveTime_prefix _ _ _ _ Hq) as (q1 & q2 & -> & Hq1).
  exists q1, q2. repeat split; [exact Hq1|].
  exact (resolveTime_reaches pre c f more target 0 q1 Hf Ht eq_refl Hq1).
Qed.

Lemma resolveTime_on_time_witness :
  exists q1 q2,
    [leaf "D,5" 0 ["D"; "5"]; delayCommand 5 1; leaf "D,7" 2 ["D"; "7"]] = q1 ++ q2
    /\ resolveTime [leaf "D,5" 0 ["D"; "5"]; timeLine 10 1] = Ok q1
    /\ sumEach duration q1 0 = Ok 10.
Proof.
  exact (resolveTime_on_time [leaf "D,5" 0 ["D"; "5"]] [leaf "D,7" 2 ["D"; "7"]]
           (timeLine 10 1) "10" [] 10 _ eq_refl eq_refl eq_refl).
Defined.

(** ** The color namespace *)

Lemma resolveColorInCommand_eq c colors allowDefine :
  resolveColorInCommand c colors allowDefine =
    f0 ← index (fields c) 0;
    if String.eqb f0 "COLOR" then
      if negb allowDefine then
        Fatal ("Error: Can't define colors here in line "
                 +:+ strconv.itoa (lineNo c) +:+ nl)
      else
        name ← index (fields c) 1;
        match colors !! name with
        | Some _ => Fatal ("Error: Color " +:+ name +:+ " redefined" +:+ nl)
        | None =>
            colorFields ←
              (if (length (fields c) =? 3)%nat then
                 f2 ← index (fields c) 2; resolveColor colors f2 (lineNo c)
               else if (5 <=? length (fields c))%nat
                    then Ok (take 3 (drop 2 (fields c)))
                    else Panic);
            f0 ← index colorFields 0; r ← parseNumber f0 (lineNo c);
            f1 ← index colorFields 1; g ← parseNumber f1 (lineNo c);
            f2 ← index colorFields 2; b ← parseNumber f2 (lineNo c);
            Ok ([], <[name := Color r g b]> colors)
        end
    else if String.eqb f0 "C" then
      if (length (fields c) =? 2)%nat then
        f1 ← index (fields c) 1;
        clr ← resolveColor colors f1 (lineNo c);
        c0 ← index clr 0; c1 ← index clr 1; c2 ← index clr 2;
        let fields' := ["C"; c0; c1; c2] in
        Ok ([Command (strings.Join fields' ",") (endLine c) (lineNo c) fields'
               (subCommands c)], colors)
      else Ok ([c], colors)
    else if String.eqb f0 "RAMP" then
      if (length (fields c) =? 3)%nat then
        f1 ← index (fields c) 1;
        clr ← resolveColor colors f1 (lineNo c);
        c0 ← index clr 0; c1 ← index clr 1; c2 ← index clr 2;
        f2 ← index (fields c) 2;
        let fields' := ["RAMP"; c0; c1; c2; f2] in
        Ok ([Command (strings.Join fields' ",") (endLine c) (lineNo c) fields'
               (subCommands c)], colors)
      else Ok ([c], colors)
    else
      b ← hasSubCommands c;
      if b : bool then
        '(subCommands', colors') ←
          appendEachWith (fun sc colors => resolveColorInCommand sc colors false)
            (subCommands c) colors;
        Ok ([Command (line c) (endLine c) (lineNo c) (fields c) subCommands'],
            colors')
      else Ok ([c], colors).
Proof. destruct c; reflexivity. Qed.

Lemma lacksOpcode_eq op c :
  lacksOpcode op c
  = match fields c with
    | [] => true
    | f0 :: _ =>
        negb (String.eqb f0 op)
        && (if isBlockCommand f0 then forallb (lacksOpcode op) (subCommands c)
            else true)
    end.
Proof. destruct c; reflexivity. Qed.

Lemma appendEachWith_kept allowDefine cs :
  Forall (fun c => forall colors out,
            resolveColorInCommand c colors allowDefine = Ok out ->
            colorsKept allowDefine colors out) cs ->
  forall colors out,
    appendEachWith (fun c colors => resolveColorInCommand c colors allowDefine)
      cs colors = Ok out ->
    colorsKept allowDefine colors out.
Proof.
  induction 1 as [|c cs Hc _ IH]; intros colors out; cbn [appendEachWith].
  - intros [= <-]. split; [reflexivity|]. now split.
  - destruct (resolveColorInCommand c colors allowDefine) as [[new colors1]| |] eqn:H1;
      try discriminate. cbn.
    destruct (appendEachWith _ cs colors1) as [[rest colors2]| |] eqn:H2;
      try discriminate. cbn. intros [= <-].
    destruct (Hc _ _ H1) as (Hsub1 & Hsame1 & Hlack1).
    destruct (IH _ _ H2) as (Hsub2 & Hsame2 & Hlack2). cbn in *.
    unfold colorsKept. cbn [fst snd].
    split; [now transitivity colors1|]. split.
    + intros Hallow. now rewrite Hsame2, Hsame1.
    + now rewrite forallb_app, Hlack1, Hlack2.
Qed.

Lemma resolveColorInCommand_kept : forall c allowDefine colors out,
  resolveColorInCommand c colors allowDefine = Ok out ->
  colorsKept allowDefine colors out.
Proof.
  induction c as [l e n f subs IH] using command_ind.
  intros allowDefine colors out. rewrite resolveColorInCommand_eq.
  unfold hasSubCommands. cbn [fields subCommands line endLine lineNo].
  destruct f as [|f0 more]; [discriminate|].
  change (index (f0 :: more) 0) with (Ok f0). cbn [mbind result_bind].
  destruct (String.eqb_spec f0 "COLOR") as [->|Hcolor].
  { destruct allowDefine; [|discriminate]. cbn [negb].
    destruct (index _ 1) as [name| |]; try discriminate. cbn [mbind result_bind].
    destruct (colors !! name) eqn:Hname; [discriminate|].
    destruct (if (length ("COLOR" :: more) =? 3)%nat then _ else _)
      as [colorFields| |];
      try discriminate. cbn [mbind result_bind].
    destruct (index colorFields 0) as [x0| |]; try discriminate. cbn [mbind result_bind].
    destruct (parseNumber x0 n) as [vr| |]; try discriminate. cbn [mbind result_bind].
    destruct (index colorFields 1) as [x1| |]; try discriminate. cbn [mbind result_bind].
    destruct (parseNumber x1 n) as [vg| |]; try discriminate. cbn [mbind result_bind].
    destruct (index colorFields 2) as [x2| |]; try discriminate. cbn [mbind result_bind].
    destruct (parseNumber x2 n) as [vb| |]; try discriminate. cbn [mbind result_bind].
    intros [= <-]. split; [now apply insert_subseteq|].
    split; [discriminate | reflexivity]. }
  assert (Hleaf : forall f0' more' e' subs' l',
            (f0' = "C" \/ f0' = "RAMP") ->
            colorsKept allowDefine colors
              ([Command l' e' n (f0' :: more') subs'], colors)).
  { intros f0' more' e' subs' l' Hop. split; [reflexivity|].
    split; [reflexivity|]. destruct Hop as [-> | ->]; reflexivity. }
  destruct (String.eqb_spec f0 "C") as [->|HC].
  { destruct (length ("C" :: more) =? 2)%nat;
      [|intros [= <-]; apply Hleaf; auto].
    destruct (index _ 1) as [f1| |]; try discriminate; cbn [mbind result_bind];
      destruct (resolveColor colors f1 n) as [clr| |]; try discriminate;
      cbn [mbind result_bind];
      destruct (index clr 0) as [c0| |]; try discriminate; cbn [mbind result_bind];
      destruct (index clr 1) as [c1| |]; try discriminate; cbn [mbind result_bind];
      destruct (index clr 2) as [c2| |]; try discriminate; cbn [mbind result_bind];
      intros [= <-]; apply Hleaf; auto. }
  destruct (String.eqb_spec f0 "RAMP") as [->|HR].
  { destruct (length ("RAMP" :: more) =? 3)%nat;
      [|intros [= <-]; apply Hleaf; auto].
    destruct (index _ 1) as [f1| |]; try discriminate; cbn [mbind result_bind].
    destruct (resolveColor colors f1 n) as [clr| |]; try discriminate.
    cbn [mbind result_bind].
    destruct (index clr 0) as [c0| |]; try discriminate; cbn [mbind result_bind].
    destruct (index clr 1) as [c1| |]; try discriminate; cbn [mbind result_bind].
    destruct (index clr 2) as [c2| |]; try discriminate; cbn [mbind result_bind].
    destruct (index _ 2) as [f2| |]; try discriminate; cbn [mbind result_bind].
    intros [= <-]. apply Hleaf. auto. }
  apply String.eqb_neq in Hcolor.
  destruct (isBlockCommand f0) eqn:Hblock.
  - destruct (appendEachWith _ subs colors) as [[subs' colors']| |] eqn:Hsubs;
      try discriminate. cbn [mbind result_bind]. intros [= <-].
    assert (Hkept : colorsKept false colors (subs', colors')).
    { apply (appendEachWith_kept false subs); [|exact Hsubs].
      eapply Forall_impl; [exact IH|]. intros sc Hsc. apply Hsc. }
    destruct Hkept as (Hsub & Hsame & Hlack). cbn in *.
    rewrite (Hsame eq_refl). split; [reflexivity|]. split; [reflexivity|].
    cbn [fst forallb]. rewrite lacksOpcode_eq. cbn [fields subCommands].
    now rewrite Hcolor, Hblock, Hlack.
  - intros [= <-]. split; [reflexivity|]. split; [reflexivity|].
    cbn [fst forallb]. rewrite lacksOpcode_eq. cbn [fields].
    now rewrite Hcolor, Hblock.
Qed.

(** X7: the color pass only ever adds definitions: the colors it starts
    with are all still there, unchanged, when it ends; inside a block
    ([allowDefine = false]) it leaves the color map exactly as it was; and
    no [COLOR] command is left in its result, at any depth. *)
Theorem resolveColor_namespace (cs : list command) (colors colors' : gmap string color)
  (allowDefine : bool) (q : list command) :
  resolveColorInCommands cs colors allowDefine = Ok (q, colors') ->
  colors ⊆ colors'
  /\ (allowDefine = false -> colors' = colors)
  /\ forallb (lacksOpcode "COLOR") q = true.
Proof.
  intros H. apply (appendEachWith_kept allowDefine cs) in H; [exact H|].
  apply Forall_forall. intros c _ colors0 out. apply resolveColorInCommand_kept.
Qed.

Lemma resolveColor_namespace_witness :
  ({["blue" := Color 0 0 255]} : gmap string color)
    ⊆ <["red" := Color 200 100 40]> {["blue" := Color 0 0 255]}.
Proof.
  exact (proj1 (resolveColor_namespace
                  [leaf "COLOR,red,200,100,40" 0 ["COLOR"; "red"; "200"; "100"; "40"]]
                  {["blue" := Color 0 0 255]} _ true [] eq_refl)).
Defined.

Lemma colorRegexp_plain name :
  name <> "" -> no_percent name = true ->
  regexp.colorRegexp name = Some (name, "").
Proof.
  induction name as [|c name IH]; [contradiction|]. intros _ H.
  cbn in H. apply andb_true_iff in H as [Hc Hname]. apply negb_true_iff in Hc.
  cbn [regexp.colorRegexp]. rewrite Hc.
  destruct name as [|c' name]; [reflexivity|].
  now rewrite IH.
Qed.

Lemma resolveColor_plain colors name c lineNo :
  name <> "" -> no_percent name = true -> colors !! name = Some c ->
  resolveColor colors name lineNo
  = Ok [strconv.itoa (r c); strconv.itoa (g c); strconv.itoa (b c)].
Proof.
  intros Hne Hname Hc. unfold resolveColor.
  now rewrite (colorRegexp_plain name Hne Hname), Hc.
Qed.

Lemma resolveColor_undefined colors name lineNo :
  name <> "" -> no_percent name = true -> colors !! name = None ->
  resolveColor colors name lineNo
  = Fatal ("Error: Color " +:+ name +:+ " not defined in line "
             +:+ strconv.itoa lineNo +:+ nl).
Proof.
  intros Hne Hname Hc. unfold resolveColor.
  now rewrite (colorRegexp_plain name Hne Hname), Hc.
Qed.

(** X8: a color that is defined can be used.  After [COLOR,name,r,g,b] at
    the top level, with [name] not defined before, a following [C,name] is
    rewritten to the [C] line of the three numbers (in plain decimal
    form), and the rest of the program is resolved with [name] bound to
    them; a second [COLOR] line for [name] is then fatal. *)
Theorem color_define_use (colors : gmap string color) (def use : command)
  (rest : list command) (name fr fg fb : string) (vr vg vb : Z) :
  fields def = ["COLOR"; name; fr; fg; fb] ->
  strconv.Atoi fr = Some vr -> strconv.Atoi fg = Some vg ->
  strconv.Atoi fb = Some vb ->
  name <> "" -> no_percent name = true -> colors !! name = None ->
  fields use = ["C"; name] ->
  resolveColorInCommands (def :: use :: rest) colors true
  = ('(q, colors') ←
       resolveColorInCommands rest (<[name := Color vr vg vb]> colors) true;
     Ok (colorCommand use (Color vr vg vb) :: q, colors'))
  /\ forall def' more,
       fields def' = "COLOR" :: name :: more ->
       resolveColorInCommand def' (<[name := Color vr vg vb]> colors) true
       = Fatal ("Error: Color " +:+ name +:+ " redefined" +:+ nl).
Proof.
  intros Hdef Hr Hg Hb Hne Hname Hfree Huse. split.
  - unfold resolveColorInCommands. cbn [appendEachWith].
    rewrite (resolveColorInCommand_eq def), Hdef. cbn.
    rewrite Hfree. unfold parseNumber. rewrite Hr, Hg, Hb. cbn.
    rewrite (resolveColorInCommand_eq use), Huse. cbn.
    rewrite (resolveColor_plain _ name (Color vr vg vb) _ Hne Hname)
      by apply lookup_insert_eq.
    cbn. destruct (appendEachWith _ rest _) as [[q colors']| |]; reflexivity.
  - intros def' more Hdef'. rewrite resolveColorInCommand_eq, Hdef'. cbn.
    now rewrite lookup_insert_eq.
Qed.

Lemma color_define_use_witness :
  resolveColorInCommands
    [leaf "COLOR,red,007,+8,9" 0 ["COLOR"; "red"; "007"; "+8"; "9"];
     leaf "C,red" 1 ["C"; "red"]] ∅ true
  = Ok ([leaf "C,7,8,9" 1 ["C"; "7"; "8"; "9"]], {["red" := Color 7 8 9]}).
Proof.
  exact (proj1 (color_define_use ∅
                  (leaf "COLOR,red,007,+8,9" 0 ["COLOR"; "red"; "007"; "+8"; "9"])
                  (leaf "C,red" 1 ["C"; "red"]) [] "red" "007" "+8" "9" 7 8 9
                  eq_refl eq_refl eq_refl eq_refl ltac:(discriminate) eq_refl
                  eq_refl eq_refl)).
Defined.

(** X9: a color cannot be used before its definition.  [C,name] with
    [name] not yet defined is fatal ("not defined", with the line number
    of the command), whatever follows it, a later [COLOR] line for [name]
    included. *)
Theorem color_forward_reference (colors : gmap string color) (use : command)
  (rest : list command) (name : string) (allowDefine : bool) :
  fields use = ["C"; name] ->
  name <> "" -> no_percent name = true -> colors !! name = None ->
  resolveColorInCommands (use :: rest) colors allowDefine
  = Fatal ("Error: Color " +:+ name +:+ " not defined in line "
             +:+ strconv.itoa (lineNo use) +:+ nl).
Proof.
  intros Huse Hne Hname Hfree. unfold resolveColorInCommands. cbn [appendEachWith].
  rewrite (resolveColorInCommand_eq use), Huse. cbn.
  now rewrite (resolveColor_undefined _ name _ Hne Hname Hfree).
Qed.

Lemma color_forward_reference_witness :
  resolveColors
    [leaf "C,red" 0 ["C"; "red"];
     leaf "COLOR,red,1,2,3" 1 ["COLOR"; "red"; "1"; "2"; "3"]]
  = Fatal ("Error: Color red not defined in line 0" +:+ nl).
Proof.
  unfold resolveColors.
  rewrite (color_forward_reference ∅ (leaf "C,red" 0 ["C"; "red"])
             [leaf "COLOR,red,1,2,3" 1 ["COLOR"; "red"; "1"; "2"; "3"]] "red" true
             eq_refl ltac:(discriminate) eq_refl eq_refl).
  reflexivity.
Defined.

(** ** Labels *)

Lemma resolveLabelsCommand_eq labels c :
  resolveLabelsCommand labels c =
    f0 ← index (fields c) 0;
    if String.eqb f0 "TIME" then
      f1 ← index (fields c) 1;
      if negb (regexp.all_digits f1) then
        match labels !! f1 with
        | None => Fatal ("Error: Label " +:+ f1 +:+ " not defined" +:+ nl)
        | Some l =>
            let fields' := ["TIME"; strconv.itoa (start l)] in
            Ok [Command (strings.Join fields' ",") (endLine c) (lineNo c) fields'
                  (subCommands c)]
        end
      else Ok [c]
    else
      b ← hasSubCommands c;
      if b : bool then
        subCommands' ← appendEach (resolveLabelsCommand labels) (subCommands c);
        Ok [Command (line c) (endLine c) (lineNo c) (fields c) subCommands']
      else Ok [c].
Proof. destruct c; reflexivity. Qed.

Lemma is_digit_char d : 0 <= d <= 9 -> regexp.is_digit (strconv.digit_char d) = true.
Proof.
  intros H.
  assert (d = 0 \/ d = 1 \/ d = 2 \/ d = 3 \/ d = 4 \/ d = 5 \/ d = 6
          \/ d = 7 \/ d = 8 \/ d = 9) as Hd by lia.
  repeat (destruct Hd as [-> | Hd]; [reflexivity |]). subst. reflexivity.
Qed.

Lemma only_digits_digits_of fuel : forall n acc,
  regexp.only_digits acc = true ->
  regexp.only_digits (strconv.digits_of fuel n acc) = true.
Proof.
  assert (Hstep : forall n acc, regexp.only_digits acc = true ->
            regexp.only_digits (String (strconv.digit_char (n mod 10)) acc) = true).
  { intros n acc Hacc. cbn [regexp.only_digits].
    rewrite is_digit_char by (pose proof (Z.mod_pos_bound n 10); lia). exact Hacc. }
  induction fuel as [|fuel IH]; intros n acc Hacc; cbn [strconv.digits_of].
  - now apply Hstep.
  - destruct (n <? 10); [now apply Hstep | apply IH, Hstep, Hacc].
Qed.

Lemma all_digits_itoa n : 0 <= n -> regexp.all_digits (strconv.itoa n) = true.
Proof.
  intros Hn. unfold strconv.itoa. destruct (Z.ltb_spec n 0); [lia|].
  unfold regexp.all_digits.
  rewrite (only_digits_digits_of 19 n "" eq_refl), andb_true_r.
  destruct (digits_of_head 19 n "") as (d & rest & _ & ->). reflexivity.
Qed.

Lemma appendEach_Forall {A B} (f : A -> result (list B)) (Q : B -> Prop) p :
  Forall (fun c => forall q, f c = Ok q -> Forall Q q) p ->
  forall q, appendEach f p = Ok q -> Forall Q q.
Proof.
  induction 1 as [|c p Hc _ IH]; intros q; cbn [appendEach].
  - intros [= <-]. constructor.
  - destruct (f c) as [new| |] eqn:Hnew; try discriminate. cbn.
    destruct (appendEach f p) as [rest| |]; try discriminate. cbn.
    intros [= <-]. apply Forall_app. split; [exact (Hc new eq_refl) | exact (IH rest eq_refl)].
Qed.

Lemma resolveLabelsCommand_settled labels :
  map_Forall (fun _ l => 0 <= start l) labels ->
  forall c q,
    resolveLabelsCommand labels c = Ok q ->
    Forall (fun c' => forall labels', resolveLabelsCommand labels' c' = Ok [c']) q.
Proof.
  intros Hpos. induction c as [l e n f subs IH] using command_ind. intros q.
  rewrite resolveLabelsCommand_eq. unfold hasSubCommands.
  cbn [fields subCommands line endLine lineNo].
  destruct f as [|f0 more]; [discriminate|].
  change (index (f0 :: more) 0) with (Ok f0). cbn [mbind result_bind].
  destruct (String.eqb f0 "TIME") eqn:Htime.
  - destruct more as [|f1 more]; [discriminate|].
    change (index (f0 :: f1 :: more) 1) with (Ok f1). cbn [mbind result_bind].
    destruct (regexp.all_digits f1) eqn:Hdigits; cbn [negb].
    + intros [= <-]. repeat constructor. intros labels'.
      rewrite resolveLabelsCommand_eq. cbn. now rewrite Htime, Hdigits.
    + destruct (labels !! f1) as [lab|] eqn:Hlab; [|discriminate].
      intros [= <-]. repeat constructor. intros labels'.
      rewrite resolveLabelsCommand_eq. cbn.
      now rewrite (all_digits_itoa _ (Hpos _ _ Hlab)).
  - destruct (isBlockCommand f0) eqn:Hblock.
    + destruct (appendEach _ subs) as [subs'| |] eqn:Hsubs; try discriminate.
      cbn [mbind result_bind]. intros [= <-]. repeat constructor. intros labels'.
      rewrite resolveLabelsCommand_eq. unfold hasSubCommands. cbn.
      rewrite Htime, Hblock. cbn.
      rewrite (appendEach_fixed (resolveLabelsCommand labels') subs'); [reflexivity|].
      pose proof (appendEach_Forall _ _ subs IH subs' Hsubs) as Hall.
      eapply Forall_impl; [exact Hall|]. intros sc Hsc. apply Hsc.
    + intros [= <-]. repeat constructor. intros labels'.
      rewrite resolveLabelsCommand_eq. unfold hasSubCommands. cbn.
      now rewrite Htime, Hblock.
Qed.

(** X10: label resolution leaves nothing to resolve.  When no label
    starts before time 0 and the Label Resolver succeeds, its result needs
    no labels any more: resolving it again, with any label map at all,
    returns it unchanged. *)
Theorem resolveLabels_settled (labels : gmap string label) (p q : program) :
  map_Forall (fun _ l => 0 <= start l) labels ->
  resolveLabels p labels = Ok q ->
  forall labels', resolveLabels q labels' = Ok q.
Proof.
  intros Hpos Hq labels'. unfold resolveLabels in *. apply appendEach_fixed.
  pose proof (appendEach_Forall (resolveLabelsCommand labels)
                (fun c' => forall labels', resolveLabelsCommand labels' c' = Ok [c'])
                p) as Hall.
  eapply Forall_impl; [apply (Hall ltac:(apply Forall_forall; intros c _;
                                         apply resolveLabelsCommand_settled, Hpos)
                                   q Hq)|].
  intros c Hc. apply Hc.
Qed.

Lemma resolveLabels_settled_witness :
  resolveLabels [leaf "TIME,1250" 0 ["TIME"; "1250"]] ∅
  = Ok [leaf "TIME,1250" 0 ["TIME"; "1250"]].
Proof.
  apply (resolveLabels_settled {["chorus" := Label 1250 2000]}
           [leaf "TIME,chorus" 0 ["TIME"; "chorus"]]).
  - apply map_Forall_singleton. cbn. lia.
  - reflexivity.
Defined.

(** The labels read so far, and those of the labels still to read. *)
Lemma readLabels_from_ok ls : forall m m',
  readLabels_from ls m = Ok m' ->
  NoDup (Title <$> ls)
  /\ (forall l, l ∈ ls -> m !! Title l = None)
  /\ forall t lab,
       m' !! t = Some lab <->
       m !! t = Some lab \/ exists l, l ∈ ls /\ Title l = t /\ lab = labelOf l.
Proof.
  induction ls as [|l ls IH]; intros m m'; cbn [readLabels_from].
  - intros [= <-]. split; [constructor|]. split; [intros l Hl; inversion Hl|].
    intros t lab. split; [auto|]. intros [H|(l & Hl & _)]; [exact H | inversion Hl].
  - destruct (m !! Title l) eqn:Hfree; [discriminate|]. intros H.
    destruct (IH _ _ H) as (Hnodup & Hfresh & Hlookup).
    assert (Hnotin : Title l ∉ Title <$> ls).
    { intros Hin. apply list_elem_of_fmap in Hin as (l' & Heq & Hl').
      specialize (Hfresh l' Hl'). rewrite <- Heq, lookup_insert_eq in Hfresh.
      discriminate. }
    split; [cbn; now constructor|]. split.
    + intros l' Hl'. apply elem_of_cons in Hl' as [->|Hl']; [exact Hfree|].
      specialize (Hfresh l' Hl').
      destruct (decide (Title l = Title l')) as [Heq|Hne].
      * rewrite Heq, lookup_insert_eq in Hfresh. discriminate.
      * now rewrite lookup_insert_ne in Hfresh.
    + intros t lab. rewrite Hlookup. split.
      * intros [Hm | (l' & Hl' & Ht & Hlab)].
        -- destruct (decide (Title l = t)) as [<-|Hne].
           ++ rewrite lookup_insert_eq in Hm. injection Hm as <-.
              right. exists l. split; [left|]. auto.
           ++ rewrite lookup_insert_ne in Hm by assumption. now left.
        -- right. exists l'. split; [now right | auto].
      * intros [Hm | (l' & Hl' & Ht & Hlab)].
        -- left. rewrite lookup_insert_ne; [exact Hm|]. congruence.
        -- apply elem_of_cons in Hl' as [->|Hl'].
           ++ left. subst. apply lookup_insert_eq.
           ++ right. now exists l'.
Qed.

Lemma readLabels_from_NoDup ls : forall m,
  NoDup (Title <$> ls) -> (forall l, l ∈ ls -> m !! Title l = None) ->
  exists m', readLabels_from ls m = Ok m'.
Proof.
  induction ls as [|l ls IH]; intros m Hnodup Hfresh; cbn [readLabels_from].
  - now exists m.
  - rewrite (Hfresh l ltac:(left)). cbn in Hnodup. apply NoDup_cons in Hnodup as [Hnotin Hnodup].
    apply IH; [exact Hnodup|]. intros l' Hl'.
    rewrite lookup_insert_ne; [apply Hfresh; now right|].
    intros Heq. apply Hnotin. rewrite Heq. now apply list_elem_of_fmap_2.
Qed.

Lemma readLabels_from_duplicate pre l post : forall m,
  (forall l', l' ∈ pre -> m !! Title l' = None) ->
  NoDup (Title <$> pre) ->
  Title l ∈ Title <$> pre \/ is_Some (m !! Title l) ->
  readLabels_from (pre ++ l :: post) m
  = Fatal ("Error: Label " +:+ Title l +:+ " defined more than once" +:+ nl).
Proof.
  induction pre as [|l0 pre IH]; intros m Hfresh Hnodup Hdup.
  - cbn. destruct Hdup as [Hin|[lab Hlab]]; [inversion Hin | now rewrite Hlab].
  - cbn [app readLabels_from]. rewrite (Hfresh l0 ltac:(left)).
    cbn in Hnodup. apply NoDup_cons in Hnodup as [Hnotin Hnodup].
    apply IH; [|exact Hnodup|].
    + intros l' Hl'. rewrite lookup_insert_ne; [apply Hfresh; now right|].
      intros Heq. apply Hnotin. rewrite Heq. now apply list_elem_of_fmap_2.
    + destruct (decide (Title l0 = Title l)) as [Heq|Hne].
      * right. rewrite Heq, lookup_insert_eq. eauto.
      * destruct Hdup as [Hin|Hsome].
        -- cbn in Hin. apply elem_of_cons in Hin as [Heq|Hin]; [congruence | now left].
        -- right. now rewrite lookup_insert_ne.
Qed.

(** X11: the label map that [readLabels] builds holds exactly the labels
    of the project: when it succeeds the titles are pairwise distinct, and
    a title is bound in the map exactly when the project has a label of
    that title, to the start and end of that label in centiseconds (the
    seconds times 100 in binary64, the fraction dropped). *)
Theorem readLabels_lookup (project : list XMLLabel) (labels : gmap string label) :
  readLabels project = Ok labels ->
  NoDup (Title <$> project)
  /\ forall t lab,
       labels !! t = Some lab <->
       exists l, l ∈ project /\ Title l = t /\ lab = labelOf l.
Proof.
  intros H. destruct (readLabels_from_ok _ _ _ H) as (Hnodup & _ & Hlookup).
  split; [exact Hnodup|]. intros t lab. rewrite Hlookup, lookup_empty.
  split; [intros [|]; [discriminate | assumption] | auto].
Qed.

(** X12: [readLabels] succeeds exactly when no two labels of the project
    share a title; otherwise it is fatal at the first label whose title
    was seen before, and names that title. *)
Theorem readLabels_duplicates (project : list XMLLabel) :
  ((exists labels, readLabels project = Ok labels) <-> NoDup (Title <$> project))
  /\ forall pre l post,
       project = pre ++ l :: post ->
       NoDup (Title <$> pre) -> Title l ∈ Title <$> pre ->
       readLabels project
       = Fatal ("Error: Label " +:+ Title l +:+ " defined more than once" +:+ nl).
Proof.
  split.
  - split.
    + intros [labels H]. exact (proj1 (readLabels_from_ok _ _ _ H)).
    + intros Hnodup. apply readLabels_from_NoDup; [exact Hnodup|].
      intros l _. apply lookup_empty.
  - intros pre l post -> Hnodup Hin.
    apply readLabels_from_duplicate; [|exact Hnodup | now left].
    intros l' _. apply lookup_empty.
Qed.

Lemma readLabels_lookup_witness :
  ({["chorus" := Label 1250 3000]} : gmap string label) !! "chorus"
  = Some (Label 1250 3000).
Proof.
  apply (proj2 (readLabels_lookup
                  [{| Title := "chorus";
                      Start := binary_normalize float64.prec float64.emax 25 (-1) false;
                      End_ := float64.of_int 30 |}]
                  {["chorus" := Label 1250 3000]} eq_refl)).
  eexists. split; [apply list_elem_of_singleton; reflexivity|].
  split; reflexivity.
Defined.

Lemma readLabels_duplicates_witness :
  readLabels [{| Title := "a"; Start := float64.of_int 1; End_ := float64.of_int 2 |};
              {| Title := "a"; Start := float64.of_int 3; End_ := float64.of_int 4 |}]
  = Fatal ("Error: Label a defined more than once" +:+ nl).
Proof.
  apply (proj2 (readLabels_duplicates _)
           [{| Title := "a"; Start := float64.of_int 1; End_ := float64.of_int 2 |}]
           {| Title := "a"; Start := float64.of_int 3; End_ := float64.of_int 4 |} []
           eq_refl).
  - repeat constructor. apply not_elem_of_nil.
  - apply list_elem_of_singleton. reflexivity.
Defined.

(** ** What specialization prints *)

Lemma printed_eq c :
  printed c
  = line c
    :: match fields c with
       | f0 :: _ =>
           if isBlockCommand f0
           then concat (map printed (subCommands c)) ++ [endLine c]
           else []
       | [] => []
       end.
Proof. destruct c; reflexivity. Qed.

Lemma forEach_printed cs :
  Forall (fun c => print c = IO (printed c) (Ok tt)) cs ->
  forEach print cs = IO (concat (map printed cs)) (Ok tt).
Proof.
  induction 1 as [|c cs Hc _ IH]; [reflexivity|].
  cbn [forEach map concat]. now rewrite Hc, io_bind_ok, IH.
Qed.

Lemma print_printed : forall c,
  hasOpcodes c = true -> print c = IO (printed c) (Ok tt).
Proof.
  induction c as [l e n f subs IH] using command_ind.
  rewrite hasOpcodes_eq, printed_eq. cbn [fields subCommands line endLine].
  destruct f as [|f0 more]; [discriminate|].
  destruct (isBlockCommand f0) eqn:Hblock; intros Hwf.
  - rewrite (print_block (Command l e n (f0 :: more) subs) f0 more
               (concat (map printed subs)) eq_refl Hblock); [reflexivity|].
    apply forEach_printed. clear -IH Hwf.
    induction IH as [|sc subs Hsc _ IHsubs]; [constructor|].
    cbn in Hwf. apply andb_true_iff in Hwf as [? ?]. constructor; auto.
  - now rewrite (print_leaf (Command l e n (f0 :: more) subs) f0 more eq_refl Hblock).
Qed.

Lemma print_program_printed p :
  forallb hasOpcodes p = true ->
  print_program p = IO (concat (map printed p)) (Ok tt).
Proof.
  intros H. apply forEach_printed. induction p as [|c p IH]; [constructor|].
  cbn in H. apply andb_true_iff in H as [? ?].
  constructor; [now apply print_printed | auto].
Qed.

Lemma appendEach_sublist (f : command -> result (list command)) p :
  Forall (fun c => forall q, f c = Ok q ->
            concat (map printed q) `sublist_of` printed c) p ->
  forall q, appendEach f p = Ok q ->
            concat (map printed q) `sublist_of` concat (map printed p).
Proof.
  induction 1 as [|c p Hc _ IH]; intros q; cbn [appendEach].
  - now intros [= <-].
  - destruct (f c) as [new| |] eqn:Hnew; try discriminate. cbn.
    destruct (appendEach f p) as [rest| |]; try discriminate. cbn.
    intros [= <-]. rewrite map_app, concat_app. cbn [map concat].
    apply sublist_app; [exact (Hc new eq_refl) | exact (IH rest eq_refl)].
Qed.

Lemma specializeCommand_sublist club : forall c q,
  specializeCommand club c = Ok q ->
  concat (map printed q) `sublist_of` printed c.
Proof.
  induction c as [l e n f subs IH] using command_ind. intros q.
  rewrite specializeCommand_eq, printed_eq. unfold hasSubCommands.
  cbn [fields subCommands line endLine lineNo].
  destruct f as [|f0 more]; [discriminate|].
  change (index (f0 :: more) 0) with (Ok f0). cbn [mbind result_bind].
  destruct (String.eqb_spec f0 "CLUBS") as [->|_].
  - destruct (clubFound _ _ _) as [[|]| |]; cbn [mbind result_bind]; try discriminate.
    + intros Hq. change (isBlockCommand "CLUBS") with true. cbn iota.
      apply sublist_cons, sublist_inserts_r.
      exact (appendEach_sublist _ subs IH q Hq).
    + intros [= <-]. apply sublist_nil_l.
  - destruct (isBlockCommand f0) eqn:Hblock.
    + destruct (appendEach _ subs) as [subs'| |] eqn:Hsubs; try discriminate.
      cbn [mbind result_bind]. intros [= <-]. cbn [map concat].
      rewrite app_nil_r, printed_eq. cbn [fields subCommands line endLine].
      rewrite Hblock. apply sublist_skip, sublist_app; [|reflexivity].
      exact (appendEach_sublist _ subs IH subs' Hsubs).
    + intros [= <-]. cbn [map concat]. rewrite app_nil_r, printed_eq.
      cbn [fields line]. now rewrite Hblock.
Qed.

(** X13: specialization only removes lines.  For a program whose commands
    all have an opcode, the lines that print for the specialized program
    are lines of the original program's print-out, in the same order:
    specialization invents no line and moves none. *)
Theorem specializeForClub_prints_sublist (p q : program) (club : Z) :
  forallb hasOpcodes p = true ->
  specializeForClub p club = Ok q ->
  exists out out',
    print_program p = IO out (Ok tt) /\ print_program q = IO out' (Ok tt)
    /\ out' `sublist_of` out.
Proof.
  intros Hwf Hq.
  exists (concat (map printed p)), (concat (map printed q)).
  split; [now apply print_program_printed|]. split.
  - apply print_program_printed.
    assert (Hall : forallb (fun c => hasOpcodes c && noClubs c) q = true).
    { apply (appendEach_all (specializeCommand club) _ p q); [|exact Hq].
      apply Forall_forall. intros c _ q'. apply specializeCommand_specialized. }
    clear -Hall. induction q as [|c q IH]; [reflexivity|].
    cbn in Hall |- *. apply andb_true_iff in Hall as [Hc Hall].
    apply andb_true_iff in Hc as [-> _]. auto.
  - apply (appendEach_sublist (specializeCommand club) p); [|exact Hq].
    apply Forall_forall. intros c _ q'. apply specializeCommand_sublist.
Qed.

Lemma specializeForClub_prints_sublist_witness :
  exists out out',
    print_program [Command "CLUBS,2" "E" 0 ["CLUBS"; "2"] [leaf "D,1" 1 ["D"; "1"]];
                   leaf "D,5" 3 ["D"; "5"]] = IO out (Ok tt)
    /\ print_program [leaf "D,5" 3 ["D"; "5"]] = IO out' (Ok tt)
    /\ out' `sublist_of` out.
Proof.
  exact (specializeForClub_prints_sublist
           [Command "CLUBS,2" "E" 0 ["CLUBS"; "2"] [leaf "D,1" 1 ["D"; "1"]];
            leaf "D,5" 3 ["D"; "5"]] [leaf "D,5" 3 ["D"; "5"]] 1 eq_refl eq_refl).
Defined.

Lemma appendEach_app {A B} (f : A -> result (list B)) p1 p2 :
  appendEach f (p1 ++ p2)
  = (q1 ← appendEach f p1; q2 ← appendEach f p2; Ok (q1 ++ q2)).
Proof.
  induction p1 as [|c p1 IH]; cbn [app appendEach].
  - now destruct (appendEach f p2).
  - rewrite IH. destruct (f c) as [new| |]; [|reflexivity..]. cbn.
    destruct (appendEach f p1) as [q1| |]; [|reflexivity..]. cbn.
    destruct (appendEach f p2) as [q2| |]; [|reflexivity..]. cbn.
    now rewrite app_assoc.
Qed.

(** X14: specialization and label resolution work command by command:
    the result for two programs put one after the other is the two results
    put one after the other, and the first error met, in that order, is
    the error of the whole. *)
Theorem passes_distribute (p1 p2 : program) :
  (forall club,
     specializeForClub (p1 ++ p2) club
     = (q1 ← specializeForClub p1 club; q2 ← specializeForClub p2 club;
        Ok (q1 ++ q2)))
  /\ (forall labels,
        resolveLabels (p1 ++ p2) labels
        = (q1 ← resolveLabels p1 labels; q2 ← resolveLabels p2 labels;
           Ok (q1 ++ q2))).
Proof. split; intros; apply appendEach_app. Qed.

(** ** Programs of comments *)

Lemma lift_bind {A B} (a : A) (k : A -> io B) : (lift (Ok a) ≫= k) = k a.
Proof. unfold lift. rewrite io_bind_ok. now destruct (k a). Qed.

Lemma lineOpcode_blank l : blank_or_comment l -> lineOpcode l = "".
Proof. intros H. unfold lineOpcode. now rewrite (splitLine_blank l H). Qed.

Lemma scan_blank lines depth :
  Forall blank_or_comment lines -> scan depth lines = Ended depth.
Proof.
  induction 1 as [|l lines Hl _ IH]; [reflexivity|].
  cbn [scan]. now rewrite (lineOpcode_blank l Hl).
Qed.

Lemma appendEachWith_fixed {S} (f : command -> S -> result (list command * S)) p s :
  Forall (fun c => forall s, f c s = Ok ([c], s)) p ->
  appendEachWith f p s = Ok (p, s).
Proof.
  induction 1 as [|c p Hc _ IH]; [reflexivity|].
  cbn [appendEachWith]. now rewrite Hc; cbn; rewrite IH.
Qed.

Lemma resolveTime_empty p :
  Forall (fun c => opcode c = Some "") p -> resolveTime_from 0 p = Ok p.
Proof.
  induction 1 as [|c p Hc _ IH]; [reflexivity|].
  rewrite (resolveTime_other 0 c p "" 0 Hc ltac:(discriminate) (empty_duration c Hc)).
  rewrite add_zero by reflexivity. now rewrite IH.
Qed.

Lemma annotateTimes_empty p time :
  Forall (fun c => opcode c = Some "") p ->
  annotateTimes_from time p = forEach print p.
Proof.
  induction 1 as [|c p Hc _ IH]; [reflexivity|].
  cbn [annotateTimes_from forEach].
  rewrite (empty_print c Hc), (empty_duration c Hc). unfold Println at 1 3.
  rewrite !io_bind_ok. cbn. now rewrite IH.
Qed.

Lemma wellParsed_blank lines c :
  Forall blank_or_comment lines -> wellParsed lines c = true ->
  opcode c = Some "".
Proof.
  intros Hlines. rewrite wellParsed_eq. intros H.
  apply andb_true_iff in H as [H _]. apply andb_true_iff in H as [H _].
  apply andb_true_iff in H as [H H1]. apply andb_true_iff in H as [_ H2].
  apply bool_decide_eq_true in H1, H2.
  assert (Hblank : blank_or_comment (line c)).
  { rewrite Forall_forall in Hlines. apply Hlines.
    eapply list_elem_of_lookup_2. exact H2. }
  unfold opcode. now rewrite H1, (splitLine_blank _ Hblank).
Qed.

(** X15: a program of nothing but empty lines and comment lines goes
    through the whole pipeline untouched: whatever the labels, the run
    ends without an error and writes the input lines, as they were, and
    no time comment. *)
Theorem compile_comments (labels : gmap string label) (lines : list string) :
  Forall blank_or_comment lines ->
  compile labels lines = IO lines (Ok tt).
Proof.
  intros Hlines.
  destruct (parseLines_total lines) as [r Hr].
  pose proof (proj1 (parse_scan lines _) 0%nat r ltac:(lia) Hr) as Hagree.
  rewrite drop_0, (scan_blank lines 0 Hlines) in Hagree.
  destruct Hagree as (p & j & -> & Hj).
  assert (Hparse : parseProgram lines = Ok p).
  { rewrite (parseProgram_eq _ _ _ Hr).
    apply Nat.ltb_ge in Hj. now rewrite Hj. }
  assert (Hp : Forall (fun c => opcode c = Some "") p).
  { pose proof (proj1 (proj1 (parse_wellParsed lines _) _ _ _ Hr)) as Hwp.
    clear -Hwp Hlines. induction p as [|c p IH]; [constructor|].
    cbn in Hwp. apply andb_true_iff in Hwp as [Hc Hwp].
    constructor; [now apply (wellParsed_blank lines) | auto]. }
  assert (Hprint : forEach print p = IO lines (Ok tt)).
  { destruct (proj1 (parse_print lines _) _ _ _ Hr) as (_ & _ & ->).
    now rewrite segment_all. }
  unfold compile. rewrite Hparse, lift_bind.
  assert (Hspec : specializeForClub p 1 = Ok p).
  { apply appendEach_fixed. eapply Forall_impl; [exact Hp|].
    intros c Hc. now apply empty_specializeCommand. }
  rewrite Hspec, lift_bind.
  assert (Hcolor : resolveColors p = Ok p).
  { unfold resolveColors, resolveColorInCommands.
    rewrite appendEachWith_fixed; [reflexivity|].
    eapply Forall_impl; [exact Hp|]. intros c Hc colors.
    now apply empty_resolveColorInCommand. }
  rewrite Hcolor, lift_bind.
  assert (Hlabels : resolveLabels p labels = Ok p).
  { apply appendEach_fixed. eapply Forall_impl; [exact Hp|].
    intros c Hc. now apply empty_resolveLabelsCommand. }
  rewrite Hlabels, lift_bind.
  unfold resolveTime. rewrite (resolveTime_empty p Hp), lift_bind.
  unfold annotateTimes. now rewrite (annotateTimes_empty p 0 Hp).
Qed.

Lemma compile_comments_witness :
  compile ∅ [""; "  ; intro"; ";"] = IO [""; "  ; intro"; ";"] (Ok tt).
Proof.
  apply compile_comments.
  repeat constructor.
  - exists "", "". repeat split. now left.
  - exists "  ", "; intro". repeat split. right. now exists " intro".
  - exists "", ";". repeat split. right. now exists "".
Defined.

(** ** The comments of the annotator *)

Lemma annotateTimes_cons time c p d :
  duration c = Ok d ->
  let time' := if 0 <? d then Int.add time d else time in
  annotateTimes_from time (c :: p)
  = IO (stdout (print c) ++ (if 0 <? d then [timeComment time'] else [])
          ++ stdout (annotateTimes_from time' p))
      (outcome (annotateTimes_from time' p)).
Proof.
  intros Hd time'. cbn [annotateTimes_from].
  pose proof (duration_print c d Hd) as Hprint.
  destruct (print c) as [out r]. cbn in Hprint. subst r.
  rewrite io_bind_ok, Hd. subst time'. cbn. destruct (0 <? d); reflexivity.
Qed.

Lemma annotateTimes_last q : forall time c d t,
  Forall (fun c => exists d, duration c = Ok d /\ 0 <= d) q ->
  duration c = Ok d -> 0 < d ->
  Int.in_range time = true ->
  sumEach duration (q ++ [c]) time = Ok t ->
  last (stdout (annotateTimes_from time (q ++ [c]))) = Some (timeComment t).
Proof.
  induction q as [|c0 q IH]; intros time c d t Hq Hd Hpos Hr.
  - rewrite app_nil_l. intros Ht. cbn [sumEach] in Ht. rewrite Hd in Ht.
    injection Ht as <-.
    rewrite (annotateTimes_cons time c [] d Hd). cbn [stdout].
    destruct (Z.ltb_spec 0 d); [|lia]. cbn [annotateTimes_from].
    change (stdout (mret tt)) with (@nil string).
    now rewrite app_nil_r, last_snoc.
  - inversion Hq as [|? ? (d0 & Hd0 & Hd0pos) Hq']; subst.
    rewrite <- app_comm_cons. intros Ht. cbn [sumEach] in Ht. rewrite Hd0 in Ht.
    cbn [mbind result_bind] in Ht.
    rewrite (annotateTimes_cons time c0 (q ++ [c]) d0 Hd0). cbn [stdout].
    assert (Htime : (if 0 <? d0 then Int.add time d0 else time) = Int.add time d0).
    { destruct (Z.ltb_spec 0 d0); [reflexivity|].
      replace d0 with 0 by lia. now rewrite add_zero. }
    rewrite Htime.
    pose proof (IH (Int.add time d0) c d t Hq' Hd Hpos (wrap_range _) Ht) as Hlast.
    rewrite !last_app, Hlast. reflexivity.
Qed.

(** X16: the comment after a command reports the time elapsed so far.
    When no command of the program has a negative duration, the last line
    that the annotator writes for a program ending in a command of
    positive duration is the time comment of the total duration of the
    program, in [int] arithmetic. *)
Theorem annotateTimes_reports_total (q : program) (c : command) (d t : Z) :
  Forall (fun c => exists d, duration c = Ok d /\ 0 <= d) q ->
  duration c = Ok d -> 0 < d ->
  sumEach duration (q ++ [c]) 0 = Ok t ->
  last (stdout (annotateTimes (q ++ [c]))) = Some (timeComment t)
  /\ outcome (annotateTimes (q ++ [c])) = Ok tt.
Proof.
  intros Hq Hd Hpos Ht. split.
  - exact (annotateTimes_last q 0 c d t Hq Hd Hpos eq_refl Ht).
  - apply annotateTimes_defined. apply Forall_app. split.
    + eapply Forall_impl; [exact Hq|]. intros c' (d' & Hd' & _). now exists d'.
    + constructor; [now exists d | constructor].
Qed.

Lemma annotateTimes_reports_total_witness :
  last (stdout (annotateTimes [leaf "D,5" 0 ["D"; "5"]; leaf "" 1 [""];
                               leaf "D,7" 2 ["D"; "7"]]))
  = Some "    ; time 12".
Proof.
  refine (proj1 (annotateTimes_reports_total
                   [leaf "D,5" 0 ["D"; "5"]; leaf "" 1 [""]]
                   (leaf "D,7" 2 ["D"; "7"]) 7 12 _ eq_refl _ eq_refl)); [|lia].
  constructor; [exists 5; split; [reflexivity | lia]|].
  constructor; [exists 0; split; [reflexivity | lia]|].
  constructor.
Defined.

(** ** Lines and fields stay in step *)

Lemma coherent_eq c :
  coherent c
  = (bool_decide (splitLine (line c) = fields c)
     && match fields c with
        | f0 :: _ =>
            if isBlockCommand f0 then forallb coherent (subCommands c) else true
        | [] => true
        end).
Proof. destruct c; reflexivity. Qed.

Lemma is_digit_not_blank c :
  regexp.is_digit c = true -> strings.in_cutset blanks c = false.
Proof.
  intros H. destruct (strings.in_cutset blanks c) eqn:Hc; [|reflexivity].
  destruct (in_cutset_blanks c Hc) as [-> | ->]; discriminate.
Qed.

Lemma only_digits_lacks c s :
  regexp.is_digit c = false -> regexp.only_digits s = true -> lacks c s = true.
Proof.
  intros Hc. induction s as [|a s IH]; [reflexivity|]. cbn.
  intros H. apply andb_true_iff in H as [Ha Hs]. rewrite (IH Hs), andb_true_r.
  apply negb_true_iff. destruct (Ascii.eqb_spec a c); [congruence | reflexivity].
Qed.

Lemma only_digits_noBlank s : regexp.only_digits s = true -> noBlank s = true.
Proof.
  induction s as [|a s IH]; [reflexivity|]. cbn.
  intros H. apply andb_true_iff in H as [Ha Hs].
  now rewrite (is_digit_not_blank a Ha), (IH Hs).
Qed.

Lemma noBlank_Trim s : noBlank s = true -> strings.Trim s blanks = s.
Proof.
  intros H. apply Trim_fixed. split.
  - destruct s; [reflexivity|]. cbn in H |- *. now apply andb_true_iff in H as [-> _].
  - induction s as [|a s IH]; [reflexivity|]. cbn in H.
    apply andb_true_iff in H as [Ha Hs]. apply negb_true_iff in Ha.
    rewrite TrimRight_cons, (IH Hs), Ha. now destruct s.
Qed.

Lemma itoa_digits n :
  exists ds, regexp.only_digits ds = true
             /\ (strconv.itoa n = ds \/ strconv.itoa n = String "-" ds).
Proof.
  unfold strconv.itoa. destruct (n <? 0).
  - exists (strconv.digits_of 19 (- n) ""). split; [|now right].
    now apply only_digits_digits_of.
  - exists (strconv.digits_of 19 n ""). split; [|now left].
    now apply only_digits_digits_of.
Qed.

Lemma cleanField_itoa n : cleanField (strconv.itoa n) = true.
Proof.
  destruct (itoa_digits n) as (ds & Hds & [-> | ->]); unfold cleanField.
  - rewrite !only_digits_lacks, noBlank_Trim, String.eqb_refl;
      auto using only_digits_noBlank.
  - cbn [lacks]. rewrite !only_digits_lacks by (reflexivity || assumption).
    rewrite noBlank_Trim, String.eqb_refl; [reflexivity|].
    cbn. now rewrite only_digits_noBlank.
Qed.

Lemma coherent_fields c : coherent c = true ->
  Forall (fun f => cleanField f = true) (fields c).
Proof.
  rewrite coherent_eq. intros H. apply andb_true_iff in H as [H _].
  apply bool_decide_eq_true in H. rewrite <- H. apply splitLine_fields_clean.
Qed.

(** A command made by a pass: its line is the join of its fields. *)
Lemma coherent_joined e n f0 more subs :
  isBlockCommand f0 = false ->
  Forall (fun f => cleanField f = true) (f0 :: more) ->
  coherent (Command (strings.Join (f0 :: more) ",") e n (f0 :: more) subs) = true.
Proof.
  intros Hblock Hclean. rewrite coherent_eq. cbn [line fields].
  rewrite Hblock, andb_true_r. apply bool_decide_eq_true.
  now apply splitLine_Join_fields.
Qed.

Lemma resolveColor_shape colors description lineNo clr :
  resolveColor colors description lineNo = Ok clr ->
  exists x y z, clr = [strconv.itoa x; strconv.itoa y; strconv.itoa z].
Proof.
  unfold resolveColor.
  destruct (regexp.colorRegexp description) as [[name percent]|]; [|discriminate].
  destruct (colors !! name) as [c|]; [|discriminate].
  destruct (String.eqb percent ""); cbn.
  - intros [= <-]. eauto.
  - destruct (parseNumber percent lineNo) as [n| |]; try discriminate. cbn.
    intros [= <-]. eauto.
Qed.

Lemma appendEach_coherent (f : command -> result (list command)) cs :
  Forall (fun c => forall q, coherent c = true -> f c = Ok q ->
            forallb coherent q = true) cs ->
  forallb coherent cs = true ->
  forall q, appendEach f cs = Ok q -> forallb coherent q = true.
Proof.
  induction 1 as [|c cs Hc _ IH]; intros Hcs q; cbn [appendEach].
  - now intros [= <-].
  - cbn in Hcs. apply andb_true_iff in Hcs as [Hcoh Hcs].
    destruct (f c) as [new| |] eqn:Hnew; try discriminate. cbn.
    destruct (appendEach f cs) as [rest| |]; try discriminate. cbn.
    intros [= <-]. now rewrite forallb_app, (Hc new Hcoh eq_refl), (IH Hcs rest eq_refl).
Qed.

Lemma appendEachWith_coherent {S} (f : command -> S -> result (list command * S)) cs :
  Forall (fun c => forall s out, coherent c = true -> f c s = Ok out ->
            forallb coherent out.1 = true) cs ->
  forallb coherent cs = true ->
  forall s out, appendEachWith f cs s = Ok out -> forallb coherent out.1 = true.
Proof.
  induction 1 as [|c cs Hc _ IH]; intros Hcs s out; cbn [appendEachWith].
  - now intros [= <-].
  - cbn in Hcs. apply andb_true_iff in Hcs as [Hcoh Hcs].
    destruct (f c s) as [[new s1]| |] eqn:H1; try discriminate. cbn.
    destruct (appendEachWith f cs s1) as [[rest s2]| |] eqn:H2; try discriminate.
    cbn. intros [= <-]. cbn [fst].
    rewrite forallb_app. apply andb_true_iff. split.
    + exact (Hc _ _ Hcoh H1).
    + exact (IH Hcs _ _ H2).
Qed.

Lemma coherent_block l e n f0 more subs :
  isBlockCommand f0 = true ->
  coherent (Command l e n (f0 :: more) subs)
  = bool_decide (splitLine l = f0 :: more) && forallb coherent subs.
Proof. intros H. rewrite coherent_eq. cbn [line fields subCommands]. now rewrite H. Qed.

Lemma specializeCommand_coherent club : forall c q,
  coherent c = true -> specializeCommand club c = Ok q ->
  forallb coherent q = true.
Proof.
  induction c as [l e n f subs IH] using command_ind. intros q Hc.
  rewrite specializeCommand_eq. unfold hasSubCommands.
  cbn [fields subCommands line endLine lineNo].
  destruct f as [|f0 more]; [discriminate|].
  change (index (f0 :: more) 0) with (Ok f0). cbn [mbind result_bind].
  assert (Hsubs : isBlockCommand f0 = true -> forall q,
            appendEach (specializeCommand club) subs = Ok q ->
            forallb coherent q = true).
  { intros Hblock. rewrite (coherent_block _ _ _ _ _ _ Hblock) in Hc.
    apply andb_true_iff in Hc as [_ Hc].
    now apply appendEach_coherent. }
  destruct (String.eqb_spec f0 "CLUBS") as [->|_].
  - destruct (clubFound _ _ _) as [[|]| |]; cbn [mbind result_bind]; try discriminate.
    + now apply Hsubs.
    + now intros [= <-].
  - destruct (isBlockCommand f0) eqn:Hblock.
    + destruct (appendEach _ subs) as [subs'| |] eqn:Hsubs'; try discriminate.
      cbn [mbind result_bind]. intros [= <-]. cbn [forallb].
      rewrite (coherent_block l e n f0 more subs Hblock) in Hc.
      rewrite (coherent_block l e n f0 more subs' Hblock).
      apply andb_true_iff in Hc as [-> _]. now rewrite (Hsubs eq_refl subs' eq_refl).
    + intros [= <-]. cbn [forallb]. now rewrite Hc.
Qed.

Lemma resolveLabelsCommand_coherent labels : forall c q,
  coherent c = true -> resolveLabelsCommand labels c = Ok q ->
  forallb coherent q = true.
Proof.
  induction c as [l e n f subs IH] using command_ind. intros q Hc.
  rewrite resolveLabelsCommand_eq. unfold hasSubCommands.
  cbn [fields subCommands line endLine lineNo].
  destruct f as [|f0 more]; [discriminate|].
  change (index (f0 :: more) 0) with (Ok f0). cbn [mbind result_bind].
  destruct (String.eqb_spec f0 "TIME") as [->|_].
  - destruct (index _ 1) as [f1| |]; try discriminate. cbn [mbind result_bind].
    destruct (negb (regexp.all_digits f1)); [|intros [= <-]; cbn [forallb]; now rewrite Hc].
    destruct (labels !! f1) as [lab|]; [|discriminate].
    intros [= <-]. cbn [forallb]. rewrite andb_true_r.
    apply (coherent_joined e n "TIME" [strconv.itoa (start lab)] subs);
      [reflexivity|].
    repeat constructor. apply cleanField_itoa.
  - destruct (isBlockCommand f0) eqn:Hblock.
    + destruct (appendEach _ subs) as [subs'| |] eqn:Hsubs'; try discriminate.
      cbn [mbind result_bind]. intros [= <-]. cbn [forallb].
      rewrite (coherent_block l e n f0 more subs Hblock) in Hc.
      rewrite (coherent_block l e n f0 more subs' Hblock).
      apply andb_true_iff in Hc as [-> Hc]. rewrite andb_true_r. cbn [andb].
      revert Hsubs'. now apply appendEach_coherent.
    + intros [= <-]. cbn [forallb]. now rewrite Hc.
Qed.

Lemma resolveColorInCommand_coherent : forall c allowDefine colors out,
  coherent c = true -> resolveColorInCommand c colors allowDefine = Ok out ->
  forallb coherent out.1 = true.
Proof.
  induction c as [l e n f subs IH] using command_ind.
  intros allowDefine colors out Hc.
  pose proof (coherent_fields _ Hc) as Hclean. cbn [fields] in Hclean.
  rewrite resolveColorInCommand_eq.
  unfold hasSubCommands. cbn [fields subCommands line endLine lineNo].
  destruct f as [|f0 more]; [discriminate|].
  change (index (f0 :: more) 0) with (Ok f0). cbn [mbind result_bind].
  destruct (String.eqb_spec f0 "COLOR") as [->|Hcolor].
  { destruct allowDefine; [|discriminate]. cbn [negb].
    destruct (index _ 1) as [name| |]; try discriminate. cbn [mbind result_bind].
    destruct (colors !! name) eqn:Hname; [discriminate|].
    destruct (if (length ("COLOR" :: more) =? 3)%nat then _ else _)
      as [colorFields| |]; try discriminate. cbn [mbind result_bind].
    destruct (index colorFields 0) as [x0| |]; try discriminate. cbn [mbind result_bind].
    destruct (parseNumber x0 n) as [vr| |]; try discriminate. cbn [mbind result_bind].
    destruct (index colorFields 1) as [x1| |]; try discriminate. cbn [mbind result_bind].
    destruct (parseNumber x1 n) as [vg| |]; try discriminate. cbn [mbind result_bind].
    destruct (index colorFields 2) as [x2| |]; try discriminate. cbn [mbind result_bind].
    destruct (parseNumber x2 n) as [vb| |]; try discriminate. cbn [mbind result_bind].
    now intros [= <-]. }
  assert (Hsame : forallb coherent [Command l e n (f0 :: more) subs] = true)
    by (cbn [forallb]; now rewrite Hc).
  destruct (String.eqb_spec f0 "C") as [->|HC].
  { destruct (length ("C" :: more) =? 2)%nat; [|now intros [= <-]].
    destruct (index _ 1) as [f1| |]; try discriminate; cbn [mbind result_bind].
    destruct (resolveColor colors f1 n) as [clr| |] eqn:Hclr; try discriminate.
    destruct (resolveColor_shape _ _ _ _ Hclr) as (x & y & z & ->).
    cbn. intros [= <-]. cbn [fst forallb]. rewrite andb_true_r.
    apply (coherent_joined e n "C" [strconv.itoa x; strconv.itoa y; strconv.itoa z]
             subs); [reflexivity|].
    repeat constructor; apply cleanField_itoa. }
  destruct (String.eqb_spec f0 "RAMP") as [->|HR].
  { destruct (length ("RAMP" :: more) =? 3)%nat; [|now intros [= <-]].
    destruct (index _ 1) as [f1| |]; try discriminate; cbn [mbind result_bind].
    destruct (resolveColor colors f1 n) as [clr| |] eqn:Hclr; try discriminate.
    destruct (resolveColor_shape _ _ _ _ Hclr) as (x & y & z & ->).
    cbn [mbind result_bind index lookup list_lookup].
    destruct more as [|m1 [|f2 more]]; try discriminate.
    cbn. intros [= <-]. cbn [fst forallb]. rewrite andb_true_r.
    apply (coherent_joined e n "RAMP"
             [strconv.itoa x; strconv.itoa y; strconv.itoa z; f2] subs);
      [reflexivity|].
    inversion Hclean as [|? ? _ H1]; inversion H1 as [|? ? _ H2];
      inversion H2 as [|? ? Hf2 _]; subst.
    repeat constructor; try apply cleanField_itoa. exact Hf2. }
  destruct (isBlockCommand f0) eqn:Hblock; [|now intros [= <-]].
  destruct (appendEachWith _ subs colors) as [[subs' colors']| |] eqn:Hsubs;
    try discriminate. cbn [mbind result_bind]. intros [= <-]. cbn [fst forallb].
  rewrite (coherent_block l e n f0 more subs Hblock) in Hc.
      rewrite (coherent_block l e n f0 more subs' Hblock).
  apply andb_true_iff in Hc as [-> Hc]. rewrite andb_true_r. cbn [andb].
  apply (appendEachWith_coherent _ subs) in Hsubs; [exact Hsubs| |exact Hc].
  eapply Forall_impl; [exact IH|]. intros c H s out. apply H.
Qed.

Lemma resolveTime_coherent p : forall time q,
  forallb coherent p = true -> resolveTime_from time p = Ok q ->
  forallb coherent q = true.
Proof.
  induction p as [|c p IH]; intros time q Hp; [now intros [= <-]|].
  cbn in Hp. apply andb_true_iff in Hp as [Hc Hp].
  intros Hq. apply resolveTime_cons_inv in Hq
    as [(f & more & target & Hf & Ht & Hnz & [[-> Hq] | [Hlt (rest & Hrest & ->)]])
       | (op & d & rest & Hop & Hne & Hd & Hrest & ->)].
  - exact (IH _ _ Hp Hq).
  - cbn [forallb]. rewrite (IH _ _ Hp Hrest), andb_true_r.
    apply (coherent_joined "" (lineNo c) "D" [strconv.itoa (Int.sub target time)] []);
      [reflexivity|].
    repeat constructor. apply cleanField_itoa.
  - cbn [forallb]. now rewrite Hc, (IH _ _ Hp Hrest).
Qed.

Lemma wellParsed_coherent lines : forall c,
  wellParsed lines c = true -> coherent c = true.
Proof.
  induction c as [l e n f subs IH] using command_ind.
  rewrite wellParsed_eq, coherent_eq. cbn [fields subCommands line endLine lineNo].
  intros H. apply andb_true_iff in H as [H Hsubs].
  apply andb_true_iff in H as [H _]. apply andb_true_iff in H as [_ Hf].
  apply bool_decide_eq_true in Hf. subst f.
  rewrite bool_decide_eq_true_2 by reflexivity. cbn [andb].
  unfold lineOpcode in Hsubs. destruct (splitLine l) as [|f0 more]; [reflexivity|].
  destruct (isBlockCommand f0); [|reflexivity].
  apply andb_true_iff in Hsubs as [_ Hsubs].
  clear -IH Hsubs. induction IH as [|sc subs Hsc _ IHsubs]; [reflexivity|].
  cbn in Hsubs |- *. apply andb_true_iff in Hsubs as [? ?].
  now rewrite Hsc, IHsubs.
Qed.

(** X17: lines and fields stay in step.  In a parsed program the line of
    every command splits into its fields, and each of the four passes
    keeps it so: where a pass rewrites a command ([C], [RAMP], [TIME]) or
    makes one (the delay for a [TIME]), the new line splits into the new
    fields.  So what the annotator prints for a command is a line that
    parses back to that command's fields. *)
Theorem passes_keep_lines :
  (forall lines p, parseProgram lines = Ok p -> forallb coherent p = true)
  /\ (forall p club q,
        forallb coherent p = true -> specializeForClub p club = Ok q ->
        forallb coherent q = true)
  /\ (forall p q,
        forallb coherent p = true -> resolveColors p = Ok q ->
        forallb coherent q = true)
  /\ (forall p labels q,
        forallb coherent p = true -> resolveLabels p labels = Ok q ->
        forallb coherent q = true)
  /\ (forall p q,
        forallb coherent p = true -> resolveTime p = Ok q ->
        forallb coherent q = true).
Proof.
  split; [|split; [|split; [|split]]].
  - intros lines p Hp. unfold parseProgram in Hp.
    destruct (parseLines _ lines 0) as [[[cs j]| |]|] eqn:Hparse; try discriminate.
    change (Ok (cs, j) ≫= _)
      with (if (j <? length lines)%nat then @Fatal program (errStrayE j) else Ok cs)
      in Hp.
    destruct (j <? length lines)%nat; [discriminate|]. injection Hp as <-.
    pose proof (proj1 (proj1 (parse_wellParsed lines _) _ _ _ Hparse)) as Hwp.
    clear -Hwp. induction cs as [|c cs IH]; [reflexivity|].
    cbn in Hwp |- *. apply andb_true_iff in Hwp as [Hc Hwp].
    now rewrite (wellParsed_coherent lines c Hc), IH.
  - intros p club q Hp. apply appendEach_coherent; [|exact Hp].
    apply Forall_forall. intros c _ q'. apply specializeCommand_coherent.
  - intros p q Hp. unfold resolveColors, resolveColorInCommands.
    destruct (appendEachWith _ p ∅) as [[q' colors']| |] eqn:Hq; try discriminate.
    intros [= <-].
    apply (appendEachWith_coherent _ p) in Hq; [exact Hq| |exact Hp].
    apply Forall_forall. intros c _ s out.
    apply resolveColorInCommand_coherent.
  - intros p labels q Hp. apply appendEach_coherent; [|exact Hp].
    apply Forall_forall. intros c _ q'. apply resolveLabelsCommand_coherent.
  - intros p q Hp. now apply resolveTime_coherent.
Qed.

Lemma passes_keep_lines_witness :
  forallb coherent [leaf "C,200,100,40" 1 ["C"; "200"; "100"; "40"]] = true.
Proof.
  apply (proj1 (proj2 (proj2 passes_keep_lines))
           [leaf "COLOR,red,200,100,40" 0 ["COLOR"; "red"; "200"; "100"; "40"];
            leaf "C , red ; all red" 1 ["C"; "red"]]); reflexivity.
Defined.
